(** * Outbound link tracker (autotrack): a shallow embedding

    The development follows [lib/plugins/outbound-link-tracker.js].  The
    plugin is effectful JavaScript: it mutates the link element, the event,
    its own instance fields, the browser's timer table and the document
    location, and it calls into the analytics tracker.  All of this is made
    explicit as a [World] that every operation threads through.

    Collaborators that live outside the plugin file ([parseUrl], the
    selector matching of [delegate], [getAttributeFields] and
    [createFieldsObj]) are parameters of the main section. *)

From Stdlib Require Import ZArith String Ascii List Bool Lia.
From stdpp Require Import base option list gmap strings.

Open Scope Z_scope.
Open Scope string_scope.
Open Scope list_scope.

(** ** JavaScript values used by the plugin *)

(** A field value of a hit: strings, booleans, numbers, or a reference to a
    function (hit callbacks are identified by their index in the closure
    store of the world). *)
Inductive FieldVal :=
  | VStr (s : string)
  | VBool (b : bool)
  | VNum (n : Z)
  | VFun (cb : nat).

Abbreviation Fields := (gmap string FieldVal).

(** [assign({}, a, b)] of object-assign: own keys of [b] override those of
    [a]. *)
Definition assign (a b : Fields) : Fields := b ∪ a.

(** Truthiness of a string: only the empty string is falsy. *)
Definition truthy (s : string) : bool := negb (String.eqb s "").

(** An option that can be a string or a falsy non-string ([null], [false],
    [undefined]), such as [opts.fallback]. *)
Definition truthy_opt (v : option string) : bool :=
  match v with
  | None => false
  | Some s => truthy s
  end.

(** [v === s] for such a value. *)
Definition strict_eq (v : option string) (s : string) : bool :=
  match v with
  | None => false
  | Some s' => String.eqb s' s
  end.

Definition toLowerAscii (c : ascii) : ascii :=
  let n := nat_of_ascii c in
  if Nat.leb 65 n && Nat.leb n 90 then ascii_of_nat (n + 32) else c.

Fixpoint toLower (s : string) : string :=
  match s with
  | EmptyString => EmptyString
  | String c s' => String (toLowerAscii c) (toLower s')
  end.

(** [t.match(/^_(self|parent|top)$/i)] as a boolean: the whole string is one
    of the three reserved frame keywords, letters compared without case. *)
Definition matches_reserved (t : string) : bool :=
  let l := toLower t in
  String.eqb l "_self" || String.eqb l "_parent" || String.eqb l "_top".

(** [s.slice(0, n)] for [0 <= n]. *)
Definition slice0 (n : nat) (s : string) : string := substring 0 n s.

Inductive JsError :=
  | TypeError
  | Exception.

Inductive Completion :=
  | Returned
  | Threw (e : JsError).

(** ** The browser objects the plugin touches *)

Record Env := {
  hasAddEventListener : bool;   (* window.addEventListener is defined *)
  hasSendBeacon : bool;         (* navigator.sendBeacon is defined *)
  location_hostname : string    (* location.hostname *)
}.

Record Url := {
  hostname : string;
  protocol : string
}.

Record Link := {
  href : string;
  target : string;
  attributes : list (string * string)
}.

Record Event := {
  type : string;
  ctrlKey : bool;
  shiftKey : bool;
  metaKey : bool;
  which : Z;
  defaultPrevented : bool
}.

Definition preventDefault (e : Event) : Event :=
  {| type := type e; ctrlKey := ctrlKey e; shiftKey := shiftKey e;
     metaKey := metaKey e; which := which e; defaultPrevented := true |}.

Inductive Tracker := TrackerObj (id : nat).
Inductive HitFilter := HitFilterFn (id : nat).

(** Result of the field-composition collaborator, which may throw. *)
Inductive Composition :=
  | Composed (f : Fields)
  | ComposeThrew.

(** ** Options *)

Record Opts := {
  events : list string;
  linkSelector : string;
  shouldTrackOutboundLink : Env -> Link -> (string -> Url) -> bool;
  fieldsObj : Fields;
  attributePrefix : string;
  hitFilter : option HitFilter;
  fallback : option string;
  fallbackWait : Z
}.

(** The overlay passed by the require command: every key may be absent. *)
Record OptsOverlay := {
  o_events : option (list string);
  o_linkSelector : option string;
  o_shouldTrackOutboundLink : option (Env -> Link -> (string -> Url) -> bool);
  o_fieldsObj : option Fields;
  o_attributePrefix : option string;
  o_hitFilter : option (option HitFilter);
  o_fallback : option (option string);
  o_fallbackWait : option Z
}.

Definition no_overlay : OptsOverlay :=
  {| o_events := None; o_linkSelector := None;
     o_shouldTrackOutboundLink := None; o_fieldsObj := None;
     o_attributePrefix := None; o_hitFilter := None; o_fallback := None;
     o_fallbackWait := None |}.

(** [assign(defaults, overlay)]: keys of the overlay replace the defaults. *)
Definition assign_opts (d : Opts) (o : OptsOverlay) : Opts :=
  {| events := default (events d) (o_events o);
     linkSelector := default (linkSelector d) (o_linkSelector o);
     shouldTrackOutboundLink :=
       default (shouldTrackOutboundLink d) (o_shouldTrackOutboundLink o);
     fieldsObj := default (fieldsObj d) (o_fieldsObj o);
     attributePrefix := default (attributePrefix d) (o_attributePrefix o);
     hitFilter := default (hitFilter d) (o_hitFilter o);
     fallback := default (fallback d) (o_fallback o);
     fallbackWait := default (fallbackWait d) (o_fallbackWait o) |}.

(** ** The default outbound predicate *)

(** [OutboundLinkTracker.prototype.shouldTrackOutboundLink]; the global
    [location] is read from the environment. *)
Definition shouldTrackOutboundLink_default
    (env : Env) (link : Link) (parseUrl : string -> Url) : bool :=
  let url := parseUrl (href link) in
  negb (String.eqb (hostname url) (location_hostname env)) &&
  String.eqb (slice0 4 (protocol url)) "http".

Definition default_opts : Opts :=
  {| events := ["click"];
     linkSelector := "a";
     shouldTrackOutboundLink := shouldTrackOutboundLink_default;
     fieldsObj := ∅;
     attributePrefix := "ga-";
     hitFilter := None;
     fallback := Some "_blank";
     fallbackWait := 500 |}.

(** What the specification calls the scheme being http or https, on the
    [protocol] component of a parsed URL (the scheme followed by a colon). *)
Definition scheme_is_http_or_https (u : Url) : Prop :=
  protocol u = "http:" ∨ protocol u = "https:".

(** ** Navigation target (lines 87-93) *)

Definition modifierOrMiddle (e : Event) : bool :=
  ctrlKey e || shiftKey e || metaKey e || (which e =? 2)%Z.

(** The local [target]: [None] stands for [false]; a [Some] is always a
    non-empty string, so [!target] is exactly [None]. *)
Definition declaredTarget (link : Link) : option string :=
  if truthy (target link) && negb (matches_reserved (target link))
  then Some (target link) else None.

Definition navigationTarget (link : Link) (e : Event) : option string :=
  if modifierOrMiddle e then Some "_blank" else declaredTarget link.

(** [!target]. *)
Definition noTarget (tgt : option string) : bool :=
  match tgt with
  | None => true
  | Some _ => false
  end.

(** ** The world *)

(** The closure returned by [createHitCallback]: the captured link element
    and the captured variable [hitCallbackHasRun]. *)
Record Closure := {
  cl_link : nat;
  hitCallbackHasRun : bool
}.

(** A pending timer of the browser: the handle returned by [setTimeout],
    the callback to run and the time at which it is due. *)
Record Timer := {
  handle : nat;
  callback : nat;
  due : Z
}.

(** A delegated listener on [document], as registered by [delegate]. *)
Record Listener := {
  lid : nat;
  l_event : string;
  l_selector : string
}.

(** Calls received by the analytics side. *)
Inductive TrackerCall :=
  | UsageTrack (t : Tracker)
  | Send (t : Tracker) (hitType : string) (fields : Fields).

(** The instance fields of the plugin object; a field that was never
    assigned is [None] ([undefined]). *)
Record Instance := {
  opts : option Opts;
  tracker : option Tracker;
  delegates : option (gmap string nat);
  fallbackTimeout : option nat
}.

Definition blank_instance : Instance :=
  {| opts := None; tracker := None; delegates := None;
     fallbackTimeout := None |}.

Record World := {
  env : Env;
  this : Instance;
  dom : nat -> Link;              (* link elements, by identity *)
  closures : list Closure;        (* hit callbacks, by index *)
  timers : list Timer;            (* pending timers, in creation order *)
  next_handle : nat;
  now : Z;                        (* milliseconds *)
  listeners : list Listener;
  next_listener : nat;
  calls : list TrackerCall;       (* oldest first *)
  navigations : list string       (* assignments to document.location *)
}.

Definition initial_world (e : Env) (d : nat -> Link) : World :=
  {| env := e; this := blank_instance; dom := d; closures := [];
     timers := []; next_handle := 1; now := 0; listeners := [];
     next_listener := 0; calls := []; navigations := [] |}.

Definition set_this (i : Instance) (w : World) : World :=
  {| env := env w; this := i; dom := dom w; closures := closures w;
     timers := timers w; next_handle := next_handle w; now := now w;
     listeners := listeners w; next_listener := next_listener w;
     calls := calls w; navigations := navigations w |}.

Definition set_dom (d : nat -> Link) (w : World) : World :=
  {| env := env w; this := this w; dom := d; closures := closures w;
     timers := timers w; next_handle := next_handle w; now := now w;
     listeners := listeners w; next_listener := next_listener w;
     calls := calls w; navigations := navigations w |}.

Definition set_closures (c : list Closure) (w : World) : World :=
  {| env := env w; this := this w; dom := dom w; closures := c;
     timers := timers w; next_handle := next_handle w; now := now w;
     listeners := listeners w; next_listener := next_listener w;
     calls := calls w; navigations := navigations w |}.

Definition set_timers (t : list Timer) (n : nat) (w : World) : World :=
  {| env := env w; this := this w; dom := dom w; closures := closures w;
     timers := t; next_handle := n; now := now w;
     listeners := listeners w; next_listener := next_listener w;
     calls := calls w; navigations := navigations w |}.

Definition set_now (t : Z) (w : World) : World :=
  {| env := env w; this := this w; dom := dom w; closures := closures w;
     timers := timers w; next_handle := next_handle w; now := t;
     listeners := listeners w; next_listener := next_listener w;
     calls := calls w; navigations := navigations w |}.

Definition set_listeners (l : list Listener) (n : nat) (w : World) : World :=
  {| env := env w; this := this w; dom := dom w; closures := closures w;
     timers := timers w; next_handle := next_handle w; now := now w;
     listeners := l; next_listener := n;
     calls := calls w; navigations := navigations w |}.

Definition set_calls (c : list TrackerCall) (w : World) : World :=
  {| env := env w; this := this w; dom := dom w; closures := closures w;
     timers := timers w; next_handle := next_handle w; now := now w;
     listeners := listeners w; next_listener := next_listener w;
     calls := c; navigations := navigations w |}.

Definition set_navigations (n : list string) (w : World) : World :=
  {| env := env w; this := this w; dom := dom w; closures := closures w;
     timers := timers w; next_handle := next_handle w; now := now w;
     listeners := listeners w; next_listener := next_listener w;
     calls := calls w; navigations := n |}.

Definition set_fallbackTimeout (h : option nat) (w : World) : World :=
  set_this {| opts := opts (this w); tracker := tracker (this w);
              delegates := delegates (this w); fallbackTimeout := h |} w.

Definition set_delegates (d : option (gmap string nat)) (w : World) : World :=
  set_this {| opts := opts (this w); tracker := tracker (this w);
              delegates := d; fallbackTimeout := fallbackTimeout (this w) |} w.

(** [link.target = t] on the element [l]. *)
Definition set_link_target (l : nat) (t : string) (w : World) : World :=
  set_dom (fun i => if Nat.eqb i l
                    then {| href := href (dom w i); target := t;
                            attributes := attributes (dom w i) |}
                    else dom w i) w.

(** ** Browser primitives *)

(** The conversion of a number to a 32-bit signed integer, which the
    browser applies to the delay of [setTimeout] (a WebIDL [long]): the
    value is taken modulo 2^32 into the range from -2^31 to 2^31 - 1. *)
Definition toInt32 (x : Z) : Z := (x + 2 ^ 31) mod 2 ^ 32 - 2 ^ 31.

(** The time a timer started with the delay [x] waits: the delay as a
    32-bit integer, a negative one counting as 0. *)
Definition timerDelay (x : Z) : Z := Z.max 0 (toInt32 x).

Arguments timerDelay x : simpl never.

(** [setTimeout(cb, delay)], called outside of a timer callback. *)
Definition setTimeout (cb : nat) (delay : Z) (w : World) : nat * World :=
  (next_handle w,
   set_timers (timers w ++ [{| handle := next_handle w; callback := cb;
                               due := now w + timerDelay delay |}])
              (S (next_handle w)) w).

Definition cancel (h : nat) (ts : list Timer) : list Timer :=
  filter (fun tm => handle tm ≠ h) ts.

(** [clearTimeout(h)]: nothing happens for [undefined] or for a handle that
    is not pending. *)
Definition clearTimeout (h : option nat) (w : World) : World :=
  match h with
  | None => w
  | Some h => set_timers (cancel h (timers w)) (next_handle w) w
  end.

(** [document.location = link]: an anchor element converts to its href. *)
Definition assign_location (l : nat) (w : World) : World :=
  set_navigations (navigations w ++ [href (dom w l)]) w.

(** [tracker.send(hitType, fields)]. *)
Definition tracker_send (t : Tracker) (hitType : string) (f : Fields)
    (w : World) : World :=
  set_calls (calls w ++ [Send t hitType f]) w.

(** [usage.track(tracker, plugin)]. *)
Definition usage_track (t : Tracker) (w : World) : World :=
  set_calls (calls w ++ [UsageTrack t]) w.

(** ** Hit callbacks (lines 149-160) *)

Definition createHitCallback (link : nat) (w : World) : nat * World :=
  (length (closures w),
   set_closures (closures w ++
                 [{| cl_link := link; hitCallbackHasRun := false |}]) w).

(** Running the function [hitCallback] whose closure has index [cb]. *)
Definition hitCallback (cb : nat) (w : World) : World :=
  match closures w !! cb with
  | None => w
  | Some c =>
    if hitCallbackHasRun c then w
    else
      let w := clearTimeout (fallbackTimeout (this w)) w in
      let w := set_closures
                 (<[cb := {| cl_link := cl_link c;
                             hitCallbackHasRun := true |}]> (closures w)) w in
      assign_location (cl_link c) w
  end.

(** ** The event loop: timers *)

(** The pending timer that is due first; among timers due at the same time
    the one created first. *)
Fixpoint earliest (ts : list Timer) : option Timer :=
  match ts with
  | [] => None
  | tm :: ts' =>
    match earliest ts' with
    | None => Some tm
    | Some tm' => if (due tm <=? due tm')%Z then Some tm else Some tm'
    end
  end.

Definition next_due (t : Z) (w : World) : option Timer :=
  match earliest (timers w) with
  | Some tm => if (due tm <=? t)%Z then Some tm else None
  | None => None
  end.

(** A timer fires: it leaves the table, the clock is at its due time (or
    later), and its callback runs.  Every timer of this program was started
    with a hit callback. *)
Definition fire (tm : Timer) (w : World) : World :=
  let w := set_timers (cancel (handle tm) (timers w)) (next_handle w) w in
  let w := set_now (Z.max (now w) (due tm)) w in
  hitCallback (callback tm) w.

(** Fire, in order, the timers that are due up to time [t]. *)
Fixpoint run_timers (fuel : nat) (t : Z) (w : World) : World :=
  match fuel with
  | O => w
  | S fuel' =>
    match next_due t w with
    | None => w
    | Some tm => run_timers fuel' t (fire tm w)
    end
  end.

(** [d] milliseconds pass.  Hit callbacks start no timers and a firing
    timer leaves the table, so the number of pending timers is enough
    fuel. *)
Definition elapse (d : Z) (w : World) : World :=
  let t := now w + Z.max 0 d in
  set_now t (run_timers (length (timers w)) t w).

Section Plugin.

(** [parseUrl] of dom-utils. *)
Variable parseUrl : string -> Url.

(** Whether [delegate] resolves an interaction on the element to a
    delegate target for the selector. *)
Variable matches : string -> Link -> bool.

(** [getAttributeFields] and [createFieldsObj] of [lib/utilities]. *)
Variable getAttributeFields : Link -> string -> Fields.
Variable createFieldsObj :
  Fields -> Fields -> Tracker -> option HitFilter -> Link -> Composition.

(** *** handleLinkInteractions (lines 73-114) *)

Definition defaultFields (event : Event) (link : Link) : Fields :=
  <["transport" := VStr "beacon"]>
  (<["eventCategory" := VStr "Outbound Link"]>
  (<["eventAction" := VStr (type event)]>
  (<["eventLabel" := VStr (href link)]> ∅))).

Definition userFields (o : Opts) (link : Link) : Fields :=
  assign (fieldsObj o) (getAttributeFields link (attributePrefix o)).

(** Lines 97-109: the fallback, on the default fields, the event and the
    world. *)
Definition applyFallback (o : Opts) (tgt : option string) (l : nat)
    (st : Fields * Event * World) : Fields * Event * World :=
  let '(df, event, w) := st in
  if negb (hasSendBeacon (env w)) && truthy_opt (fallback o) then
    if strict_eq (fallback o) "_blank" then
      (df, event, set_link_target l "_blank" w)
    else if strict_eq (fallback o) "wait" && noTarget tgt then
      let event := preventDefault event in
      let '(cb, w) := createHitCallback l w in
      let df := <["hitCallback" := VFun cb]> df in
      let '(h, w) := setTimeout cb (fallbackWait o) w in
      (df, event, set_fallbackTimeout (Some h) w)
    else st
  else st.

Definition handleLinkInteractions (event : Event) (l : nat) (w : World)
    : Completion * Event * World :=
  match opts (this w) with
  | None => (Threw TypeError, event, w)
  | Some o =>
    let link := dom w l in
    if shouldTrackOutboundLink o (env w) link parseUrl then
      let df := defaultFields event link in
      let uf := userFields o link in
      let tgt := navigationTarget link event in
      let '(df, event, w) := applyFallback o tgt l (df, event, w) in
      match tracker (this w) with
      | None => (Threw TypeError, event, w)
      | Some t =>
        match createFieldsObj df uf t (hitFilter o) (dom w l) with
        | ComposeThrew => (Threw Exception, event, w)
        | Composed f => (Returned, event, tracker_send t "event" f w)
        end
      end
    else (Returned, event, w)
  end.

(** *** The constructor (lines 33-62) *)

(** [delegate(document, event, selector, handler, ...)]: a listener is
    added to the document; the delegate object is known by its id. *)
Definition delegate (event selector : string) (w : World) : nat * World :=
  (next_listener w,
   set_listeners (listeners w ++
                  [{| lid := next_listener w; l_event := event;
                      l_selector := selector |}])
                 (S (next_listener w)) w).

(** One turn of the [forEach] at lines 58-61.  [this.delegates] is an
    ordinary object, modelled by the map of its own properties: the
    assignment [this.delegates[event] = d] adds or replaces the property
    [event], except for the name [__proto__], for which it sets the
    prototype of the object to [d] and adds no property. *)
Definition registerEvent (selector : string) (w : World) (event : string)
    : World :=
  let '(d, w) := delegate event selector w in
  if String.eqb event "__proto__" then w
  else set_delegates (insert event d <$> delegates (this w)) w.

Definition OutboundLinkTracker (t : Tracker) (overlay : OptsOverlay)
    (w : World) : World :=
  let w := set_this blank_instance w in          (* new *)
  let w := usage_track t w in
  if negb (hasAddEventListener (env w)) then w
  else
    let o := assign_opts default_opts overlay in
    let w := set_this {| opts := Some o; tracker := Some t;
                         delegates := Some ∅;
                         fallbackTimeout := fallbackTimeout (this w) |} w in
    fold_left (registerEvent (linkSelector o)) (events o) w.

(** *** remove (lines 137-141) *)

(** [delegate.destroy()]: the listener is taken off the document.  The
    order in which [remove] visits the keys does not matter. *)
Definition destroy (d : nat) (w : World) : World :=
  set_listeners (filter (fun x => lid x ≠ d) (listeners w))
                (next_listener w) w.

Definition remove (w : World) : Completion * World :=
  match delegates (this w) with
  | None => (Threw TypeError, w)
  | Some ds =>
    (Returned, fold_left (fun w kv => destroy (snd kv) w) (map_to_list ds) w)
  end.

(** *** The page as a transition system *)

(** The browser dispatches an interaction on link element [l]: every
    listener for the event type whose selector resolves the element runs
    the handler; an exception of a listener is reported and does not stop
    the dispatch. *)
Definition deliver (l : nat) (st : Event * World) (x : Listener)
    : Event * World :=
  let '(event, w) := st in
  if String.eqb (l_event x) (type event) && matches (l_selector x) (dom w l)
  then let '(_, event, w) := handleLinkInteractions event l w in (event, w)
  else st.

Definition dispatch (event : Event) (l : nat) (w : World) : Event * World :=
  fold_left (deliver l) (listeners w) (event, w).

Inductive Step :=
  | Interact (event : Event) (l : nat)   (* the user acts on a link *)
  | Elapse (d : Z)                       (* time passes *)
  | HitSent (cb : nat)                   (* analytics reports completion *)
  | Remove.                              (* the page calls remove() *)

Definition step (w : World) (s : Step) : World :=
  match s with
  | Interact event l => snd (dispatch event l w)
  | Elapse d => elapse d w
  | HitSent cb => hitCallback cb w
  | Remove => snd (remove w)
  end.

Definition run (ss : list Step) (w : World) : World := fold_left step ss w.

End Plugin.

(** ** A concrete page, for the examples *)

(** The text before the first occurrence of [c] (all of it when there is
    none) and the text after it (nothing when there is none). *)
Fixpoint before (c : ascii) (s : string) : string :=
  match s with
  | EmptyString => EmptyString
  | String a s' => if Ascii.eqb a c then EmptyString else String a (before c s')
  end.

Fixpoint after (c : ascii) (s : string) : string :=
  match s with
  | EmptyString => EmptyString
  | String a s' => if Ascii.eqb a c then s' else after c s'
  end.

(** A URL parser for addresses of the shape [scheme://host/path]. *)
Definition simpleParseUrl (h : string) : Url :=
  {| protocol := before ":" h ++ ":";
     hostname := before "/" (substring 2 (String.length h) (after ":" h)) |}.

(** A selector that is a tag name resolves every link of the examples,
    which are all anchors. *)
Definition anchorMatches (selector : string) (_ : Link) : bool :=
  String.eqb selector "a".

Definition noAttributeFields (_ : Link) (_ : string) : Fields := ∅.

(** Composition without a hit filter: the user fields over the defaults. *)
Definition plainCompose (df uf : Fields) (_ : Tracker) (_ : option HitFilter)
    (_ : Link) : Composition :=
  Composed (assign df uf).

(** A composition that fails. *)
Definition failingCompose (df uf : Fields) (_ : Tracker)
    (_ : option HitFilter) (_ : Link) : Composition :=
  ComposeThrew.

Definition pageEnv (beacon : bool) : Env :=
  {| hasAddEventListener := true; hasSendBeacon := beacon;
     location_hostname := "example.com" |}.

Definition oldBrowserEnv : Env :=
  {| hasAddEventListener := false; hasSendBeacon := false;
     location_hostname := "example.com" |}.

(** Element 0 links to another site, element 1 to a second one, element 2
    to the page's own site; every other element is an anchor without
    address. *)
Definition pageLinks (i : nat) : Link :=
  match i with
  | 0%nat => {| href := "https://other.example/x"; target := "";
                attributes := [] |}
  | 1%nat => {| href := "http://second.example/"; target := "_self";
                attributes := [] |}
  | 2%nat => {| href := "https://example.com/about"; target := "";
                attributes := [] |}
  | _ => {| href := ""; target := ""; attributes := [] |}
  end.

Definition click : Event :=
  {| type := "click"; ctrlKey := false; shiftKey := false; metaKey := false;
     which := 1; defaultPrevented := false |}.

Definition ctrlClick : Event :=
  {| type := "click"; ctrlKey := true; shiftKey := false; metaKey := false;
     which := 1; defaultPrevented := false |}.

Definition theTracker : Tracker := TrackerObj 0.

Definition waitOverlay : OptsOverlay :=
  {| o_events := None; o_linkSelector := None;
     o_shouldTrackOutboundLink := None; o_fieldsObj := None;
     o_attributePrefix := None; o_hitFilter := None;
     o_fallback := Some (Some "wait"); o_fallbackWait := None |}.

Definition waitOpts : Opts := assign_opts default_opts waitOverlay.

(** An overlay that names the same event twice. *)
Definition twiceOverlay : OptsOverlay :=
  {| o_events := Some ["click"; "click"]; o_linkSelector := None;
     o_shouldTrackOutboundLink := None; o_fieldsObj := None;
     o_attributePrefix := None; o_hitFilter := None;
     o_fallback := None; o_fallbackWait := None |}.

(** The page after the plugin was required with [fallback: 'wait'], in a
    browser with or without [navigator.sendBeacon]. *)
Definition waitPage (beacon : bool) : World :=
  OutboundLinkTracker theTracker waitOverlay
    (initial_world (pageEnv beacon) pageLinks).

(** The page after the plugin was required without options, in a browser
    without [navigator.sendBeacon]. *)
Definition defaultPage : World :=
  OutboundLinkTracker theTracker no_overlay
    (initial_world (pageEnv false) pageLinks).

Definition keydown : Event :=
  {| type := "keydown"; ctrlKey := false; shiftKey := false;
     metaKey := false; which := 13; defaultPrevented := false |}.

(** The listener that the constructor registers on the example pages. *)
Definition clickListener : Listener :=
  {| lid := 0; l_event := "click"; l_selector := "a" |}.

(** Link 0 was clicked 100 ms ago; then link 1 is clicked and 500 ms pass,
    while no send completes. *)
Definition firstClicked : World :=
  run simpleParseUrl anchorMatches noAttributeFields plainCompose
    [Interact click 0; Elapse 100] (waitPage false).

Definition bothClicked : World :=
  run simpleParseUrl anchorMatches noAttributeFields plainCompose
    [Interact click 1; Elapse 500] firstClicked.

(** A composition that fails for the link with the address [h] and
    composes as [plainCompose] for every other link. *)
Definition composeFailingOn (h : string) (df uf : Fields) (_ : Tracker)
    (_ : option HitFilter) (lk : Link) : Composition :=
  if String.eqb (href lk) h then ComposeThrew else Composed (assign df uf).

Definition secondFails :
    Fields -> Fields -> Tracker -> option HitFilter -> Link -> Composition :=
  composeFailingOn "http://second.example/".

(** Link 0 was clicked 100 ms ago, its hit was composed and sent and the
    send has not completed; then link 1 is clicked and the composition of
    its hit throws. *)
Definition firstSent : World :=
  run simpleParseUrl anchorMatches noAttributeFields secondFails
    [Interact click 0; Elapse 100] (waitPage false).

Definition secondThrew : Completion * Event * World :=
  handleLinkInteractions simpleParseUrl noAttributeFields secondFails
    click 1 firstSent.

(** ... and [fallbackWait] ms later. *)
Definition secondWaited : World := elapse 500 secondThrew.2.

(** The plugin required with [fallback: 'wait'] and
    [fallbackWait: 3000000000], without [navigator.sendBeacon]. *)
Definition longWaitOverlay : OptsOverlay :=
  {| o_events := None; o_linkSelector := None;
     o_shouldTrackOutboundLink := None; o_fieldsObj := None;
     o_attributePrefix := None; o_hitFilter := None;
     o_fallback := Some (Some "wait"); o_fallbackWait := Some 3000000000 |}.

Definition longWaitOpts : Opts := assign_opts default_opts longWaitOverlay.

Definition longWaitPage : World :=
  OutboundLinkTracker theTracker longWaitOverlay
    (initial_world (pageEnv false) pageLinks).

Definition longWaitClicked : World :=
  (handleLinkInteractions simpleParseUrl noAttributeFields plainCompose
     click 0 longWaitPage).2.

(** The plugin required with [events: ['click', 'click']], and that page
    after [remove()]. *)
Definition twicePage : World :=
  OutboundLinkTracker theTracker twiceOverlay
    (initial_world (pageEnv true) pageLinks).

Definition twiceRemoved : Completion * World := remove twicePage.

(** An overlay whose only event name is [__proto__]. *)
Definition protoOverlay : OptsOverlay :=
  {| o_events := Some ["__proto__"]; o_linkSelector := None;
     o_shouldTrackOutboundLink := None; o_fieldsObj := None;
     o_attributePrefix := None; o_hitFilter := None;
     o_fallback := None; o_fallbackWait := None |}.

(** What the caller sees and what the tracker has received once line 111
    has run on a composition result: a field set is sent as one 'event'
    hit, a failure is rethrown and nothing is sent. *)
Definition afterSend (t : Tracker) (r : Composition)
    (received : list TrackerCall) : Completion * list TrackerCall :=
  match r with
  | Composed f => (Returned, received ++ [Send t "event" f])
  | ComposeThrew => (Threw Exception, received)
  end.

(** The closure [cb] exists and its [hitCallbackHasRun] is set. *)
Definition has_run (cb : nat) (w : World) : Prop :=
  ∃ c, closures w !! cb = Some c ∧ hitCallbackHasRun c = true.

(** Every listener on the document is recorded in [this.delegates] under
    its event name. *)
Definition registry_covers (w : World) : Prop :=
  ∃ ds, delegates (this w) = Some ds ∧
        ∀ x, x ∈ listeners w → ds !! l_event x = Some (lid x).

(** From [w] to [w']: the environment, the options, the tracker and the
    delegates of the instance stay; no listener appears; a hit callback
    that has run stays run. *)
Definition evolves (w w' : World) : Prop :=
  env w' = env w ∧ opts (this w') = opts (this w) ∧
  tracker (this w') = tracker (this w) ∧
  delegates (this w') = delegates (this w) ∧
  (∀ x, x ∈ listeners w' → x ∈ listeners w) ∧
  (∀ cb, has_run cb w → has_run cb w').

(** Every pending timer belongs to a hit callback that has run. *)
Definition settled (w : World) : Prop :=
  ∀ tm, tm ∈ timers w → has_run (callback tm) w.

(** The hit callback [cb] for link [l] has not run, its timer [h] is the
    one recorded in [this.fallbackTimeout] and is due by time [t], and all
    other pending timers belong to hit callbacks that have run. *)
Definition awaiting (h cb l : nat) (t : Z) (w : World) : Prop :=
  closures w !! cb = Some {| cl_link := l; hitCallbackHasRun := false |} ∧
  fallbackTimeout (this w) = Some h ∧
  (∃ tm, tm ∈ timers w ∧ handle tm = h ∧ (due tm ≤ t)%Z) ∧
  ∀ tm, tm ∈ timers w →
        if decide (handle tm = h) then callback tm = cb
        else has_run (callback tm) w.

(** The handles of the pending timers were all handed out already. *)
Definition handles_fresh (w : World) : Prop :=
  ∀ tm, tm ∈ timers w → (handle tm < next_handle w)%nat.

(** From [w] to [w']: a pending timer was pending before or was started in
    between. *)
Definition timers_evolve (w w' : World) : Prop :=
  (next_handle w ≤ next_handle w')%nat ∧
  ∀ tm, tm ∈ timers w' →
        tm ∈ timers w ∨ (next_handle w ≤ handle tm < next_handle w')%nat.

(** The addresses assigned by the hit callbacks that have run, in the order
    in which the callbacks were created. *)
Definition visited (w : World) : list string :=
  (fun c => href (dom w (cl_link c))) <$>
  filter (fun c => hitCallbackHasRun c = true) (closures w).

(** From [w] to [w']: no link changed its address or its attributes, and a
    target that changed is now "_blank". *)
Definition links_evolve (w w' : World) : Prop :=
  ∀ i, href (dom w' i) = href (dom w i) ∧
       attributes (dom w' i) = attributes (dom w i) ∧
       (target (dom w' i) = target (dom w i) ∨ target (dom w' i) = "_blank").

(** Nothing is or was deferred: no timer, no hit callback, no navigation. *)
Definition idle (w : World) : Prop :=
  timers w = [] ∧ closures w = [] ∧ navigations w = [].

(** The "wait" branch cannot be taken in [w]: there is a beacon, or the
    configured fallback is not "wait". *)
Definition never_waits (w : World) : Prop :=
  ∀ o, opts (this w) = Some o →
       hasSendBeacon (env w) = true ∨ fallback o ≠ Some "wait".

(** * Properties *)

(** ** The default predicate *)

(** C6, as amended: the default predicate is true exactly when the parsed
    hostname differs from the page's hostname and the first four characters
    of the parsed protocol are "http".  Hence it is true for every http or
    https link to another host, and false for every link whose hostname is
    the page's, whatever its other attributes. *)
Theorem shouldTrackOutboundLink_default_spec
    (e : Env) (link : Link) (parseUrl : string -> Url) :
  let url := parseUrl (href link) in
  (shouldTrackOutboundLink_default e link parseUrl = true ↔
     hostname url ≠ location_hostname e ∧ slice0 4 (protocol url) = "http") ∧
  (hostname url ≠ location_hostname e → scheme_is_http_or_https url →
     shouldTrackOutboundLink_default e link parseUrl = true) ∧
  (hostname url = location_hostname e →
     shouldTrackOutboundLink_default e link parseUrl = false).
Proof.
  intros url. unfold shouldTrackOutboundLink_default. fold url.
  assert (Hiff : negb (String.eqb (hostname url) (location_hostname e)) &&
                 String.eqb (slice0 4 (protocol url)) "http" = true ↔
                 hostname url ≠ location_hostname e ∧
                 slice0 4 (protocol url) = "http").
  { rewrite andb_true_iff, negb_true_iff, String.eqb_neq, String.eqb_eq.
    reflexivity. }
  split; [exact Hiff|]. split.
  - intros Hne [Hp | Hp]; apply Hiff; rewrite Hp; auto.
  - intros Heq. rewrite Heq, String.eqb_refl. reflexivity.
Qed.

(** C6, counterexample: for a link to another host whose scheme is "httpx",
    neither http nor https, the default predicate is true, so it is not
    equivalent to "the hostname differs and the scheme is http or https". *)
Lemma shouldTrackOutboundLink_default_httpx :
  let link := {| href := "httpx://other.example/x"; target := "";
                 attributes := [] |} in
  let url := simpleParseUrl (href link) in
  ¬ (shouldTrackOutboundLink_default (pageEnv true) link simpleParseUrl = true
     ↔ hostname url ≠ location_hostname (pageEnv true) ∧
       scheme_is_http_or_https url).
Proof.
  cbv zeta. intros [H _].
  destruct (H eq_refl) as [_ [Hp | Hp]]; vm_compute in Hp; discriminate.
Qed.

Section Properties.

Variable parseUrl : string -> Url.
Variable matches : string -> Link -> bool.
Variable getAttributeFields : Link -> string -> Fields.
Variable createFieldsObj :
  Fields -> Fields -> Tracker -> option HitFilter -> Link -> Composition.

Local Abbreviation handler :=
  (handleLinkInteractions parseUrl getAttributeFields createFieldsObj).
Local Abbreviation userFieldsOf := (userFields getAttributeFields).

(** ** The fallback step *)

Lemma strict_eq_true (v : option string) (s : string) :
  strict_eq v s = true ↔ v = Some s.
Proof.
  destruct v as [s'|]; simpl.
  - rewrite String.eqb_eq. split; congruence.
  - split; discriminate.
Qed.

Lemma strict_eq_false (v : option string) (s : string) :
  strict_eq v s = false ↔ v ≠ Some s.
Proof.
  rewrite <- strict_eq_true. destruct (strict_eq v s); split; congruence.
Qed.

Lemma noTarget_true (tgt : option string) : noTarget tgt = true ↔ tgt = None.
Proof. destruct tgt; simpl; split; congruence. Qed.

(** The "wait" branch is taken: lines 104-107. *)
Lemma applyFallback_wait o l df ev w :
  hasSendBeacon (env w) = false → fallback o = Some "wait" →
  applyFallback o None l (df, ev, w) =
  (<["hitCallback" := VFun (length (closures w))]> df,
   preventDefault ev,
   set_fallbackTimeout (Some (next_handle w))
     (snd (setTimeout (length (closures w)) (fallbackWait o)
        (snd (createHitCallback l w))))).
Proof.
  intros Hb Hf. unfold applyFallback. rewrite Hb, Hf. reflexivity.
Qed.

(** The "wait" branch is not taken: the fields and the event are left
    alone, and the world changes at most by the "_blank" rewrite of the
    link's target. *)
Lemma applyFallback_idle o tgt l df ev w :
  hasSendBeacon (env w) = true ∨ fallback o ≠ Some "wait" ∨ tgt ≠ None →
  ∃ w', applyFallback o tgt l (df, ev, w) = (df, ev, w') ∧
        (w' = w ∨ w' = set_link_target l "_blank" w).
Proof.
  intros H. unfold applyFallback.
  destruct (negb (hasSendBeacon (env w)) && truthy_opt (fallback o)) eqn:E1;
    [|eauto].
  destruct (strict_eq (fallback o) "_blank") eqn:E2; [eauto|].
  destruct (strict_eq (fallback o) "wait" && noTarget tgt) eqn:E3; [|eauto].
  exfalso. apply andb_true_iff in E1 as [E1 _], E3 as [E3 E4].
  apply negb_true_iff in E1. apply strict_eq_true in E3.
  apply noTarget_true in E4. destruct H as [H | [H | H]]; congruence.
Qed.

(** ** The handler on a tracked link *)

Lemma handler_tracked w ev l o t df ev1 w1 :
  opts (this w) = Some o →
  shouldTrackOutboundLink o (env w) (dom w l) parseUrl = true →
  applyFallback o (navigationTarget (dom w l) ev) l
    (defaultFields ev (dom w l), ev, w) = (df, ev1, w1) →
  tracker (this w1) = Some t →
  handler ev l w =
  match createFieldsObj df (userFieldsOf o (dom w l)) t (hitFilter o)
          (dom w1 l) with
  | ComposeThrew => (Threw Exception, ev1, w1)
  | Composed f => (Returned, ev1, tracker_send t "event" f w1)
  end.
Proof.
  intros Ho Hs Ha Ht. unfold handleLinkInteractions.
  rewrite Ho, Hs, Ha, Ht. reflexivity.
Qed.

Lemma defaultFields_no_hitCallback ev link :
  defaultFields ev link !! "hitCallback" = None.
Proof. reflexivity. Qed.

(** What the handler does when the "wait" fallback is engaged. *)
Lemma handler_wait w ev l o t :
  opts (this w) = Some o → tracker (this w) = Some t →
  shouldTrackOutboundLink o (env w) (dom w l) parseUrl = true →
  hasSendBeacon (env w) = false → fallback o = Some "wait" →
  navigationTarget (dom w l) ev = None →
  let cb := length (closures w) in
  let w1 := set_fallbackTimeout (Some (next_handle w))
              (snd (setTimeout cb (fallbackWait o)
                 (snd (createHitCallback l w)))) in
  handler ev l w =
  match createFieldsObj
          (<["hitCallback" := VFun cb]> (defaultFields ev (dom w l)))
          (userFieldsOf o (dom w l)) t (hitFilter o) (dom w l) with
  | ComposeThrew => (Threw Exception, preventDefault ev, w1)
  | Composed f => (Returned, preventDefault ev, tracker_send t "event" f w1)
  end.
Proof.
  intros Ho Ht Hs Hb Hf Hn cb w1.
  apply (handler_tracked w ev l o t _ (preventDefault ev) w1 Ho Hs).
  - rewrite Hn. apply applyFallback_wait; assumption.
  - exact Ht.
Qed.

(** What the handler does when it is not. *)
Lemma handler_idle w ev l o t :
  opts (this w) = Some o → tracker (this w) = Some t →
  shouldTrackOutboundLink o (env w) (dom w l) parseUrl = true →
  hasSendBeacon (env w) = true ∨ fallback o ≠ Some "wait" ∨
    navigationTarget (dom w l) ev ≠ None →
  ∃ w1, (w1 = w ∨ w1 = set_link_target l "_blank" w) ∧
    handler ev l w =
    match createFieldsObj (defaultFields ev (dom w l))
            (userFieldsOf o (dom w l)) t (hitFilter o) (dom w1 l) with
    | ComposeThrew => (Threw Exception, ev, w1)
    | Composed f => (Returned, ev, tracker_send t "event" f w1)
    end.
Proof.
  intros Ho Ht Hs Hc.
  destruct (applyFallback_idle o _ l (defaultFields ev (dom w l)) ev w Hc)
    as (w1 & Ha & Hw).
  exists w1. split; [exact Hw|].
  eapply handler_tracked; eauto.
  destruct Hw as [-> | ->]; exact Ht.
Qed.

(** ** Claims about one interaction *)

(** The delay of a timer is the given one when that is a non-negative
    32-bit integer. *)
Lemma timerDelay_in_range x : (0 ≤ x < 2 ^ 31)%Z → timerDelay x = x.
Proof.
  intros Hx. unfold timerDelay, toInt32.
  rewrite Z.mod_small by lia. lia.
Qed.

Lemma timerDelay_nonneg x : (0 ≤ timerDelay x)%Z.
Proof. unfold timerDelay. lia. Qed.

Lemma timerDelay_le x : (- 2 ^ 31 ≤ x)%Z → (timerDelay x ≤ Z.max 0 x)%Z.
Proof.
  intros Hx. unfold timerDelay, toInt32.
  pose proof (Z.mod_pos_bound (x + 2 ^ 31) (2 ^ 32) ltac:(lia)) as Hb.
  destruct (Z.lt_ge_cases x (2 ^ 31)) as [Hlt|Hge].
  - rewrite Z.mod_small by lia. lia.
  - lia.
Qed.

(** Step 4 finds no target exactly when no modifier key is held, the
    button is not the middle one, and the link's target is empty or one of
    the reserved names, letters compared without case. *)
Lemma noTarget_condition link ev :
  navigationTarget link ev = None ↔
  ctrlKey ev = false ∧ shiftKey ev = false ∧ metaKey ev = false ∧
  which ev ≠ 2 ∧
  (target link = "" ∨
   toLower (target link) = "_self" ∨ toLower (target link) = "_parent" ∨
   toLower (target link) = "_top").
Proof.
  unfold navigationTarget, modifierOrMiddle, declaredTarget, truthy,
    matches_reserved.
  destruct (ctrlKey ev), (shiftKey ev), (metaKey ev); simpl;
    try (split; [discriminate|intros (? & ? & ? & _); discriminate]).
  destruct (Z.eqb_spec (which ev) 2) as [E|E]; simpl.
  { split; [discriminate|]. intros (_ & _ & _ & H & _). destruct (H E). }
  destruct (String.eqb_spec (target link) "") as [E0|E0]; simpl.
  { split; [intros _; repeat split; auto|reflexivity]. }
  destruct (String.eqb_spec (toLower (target link)) "_self") as [E1|E1];
    simpl; [split; [intros _; repeat split; auto|reflexivity]|].
  destruct (String.eqb_spec (toLower (target link)) "_parent") as [E2|E2];
    simpl; [split; [intros _; repeat split; auto|reflexivity]|].
  destruct (String.eqb_spec (toLower (target link)) "_top") as [E3|E3];
    simpl; [split; [intros _; repeat split; auto 6|reflexivity]|].
  split; [discriminate|]. intros (_ & _ & _ & _ & [H|[H|[H|H]]]); contradiction.
Qed.

(** The two ways through lines 95-109 on a tracked link, by the value of
    the local [target]. *)
Lemma handler_wait_or_idle w ev l o t :
  opts (this w) = Some o → tracker (this w) = Some t →
  shouldTrackOutboundLink o (env w) (dom w l) parseUrl = true →
  let link := dom w l in
  let engaged := hasSendBeacon (env w) = false ∧ fallback o = Some "wait" ∧
                 navigationTarget link ev = None in
  let cb := length (closures w) in
  let '(c, ev', w') := handler ev l w in
  (engaged →
     defaultPrevented ev' = true ∧
     closures w' =
       closures w ++ [{| cl_link := l; hitCallbackHasRun := false |}] ∧
     timers w' =
       timers w ++ [{| handle := next_handle w; callback := cb;
                       due := now w + timerDelay (fallbackWait o) |}] ∧
     fallbackTimeout (this w') = Some (next_handle w) ∧
     (c, calls w') =
       afterSend t
         (createFieldsObj
            (<["hitCallback" := VFun cb]> (defaultFields ev link))
            (userFieldsOf o link) t (hitFilter o) link)
         (calls w)) ∧
  (¬ engaged →
     ev' = ev ∧ closures w' = closures w ∧ timers w' = timers w ∧
     next_handle w' = next_handle w ∧
     fallbackTimeout (this w') = fallbackTimeout (this w) ∧
     defaultFields ev link !! "hitCallback" = None ∧
     (c, calls w') =
       afterSend t
         (createFieldsObj (defaultFields ev link) (userFieldsOf o link) t
            (hitFilter o) (dom w' l))
         (calls w)).
Proof.
  intros Ho Ht Hs link engaged cb.
  destruct (hasSendBeacon (env w)) eqn:Hb;
    [|destruct (decide (fallback o = Some "wait")) as [Hf|Hf];
      [destruct (navigationTarget link ev) eqn:Hn|]].
  3: { (* engaged *)
    rewrite (handler_wait w ev l o t Ho Ht Hs Hb Hf Hn). fold cb link.
    destruct (createFieldsObj _ _ _ _ _); simpl;
      (split; [intros _; repeat split; reflexivity
              |intros Hne; exfalso; apply Hne; repeat split; auto]). }
  all: destruct (handler_idle w ev l o t Ho Ht Hs) as (w1 & Hw & ->);
    [first [left; exact Hb | right; left; exact Hf
           | right; right; fold link; congruence] | ].
  all: fold link;
    destruct (createFieldsObj _ _ _ _ (dom w1 l)) eqn:Hc;
    (split; [intros (? & ? & ?); congruence|]); intros _;
    cbv beta iota zeta; unfold tracker_send, set_calls; cbn [dom calls];
    rewrite Hc; destruct Hw as [-> | ->]; repeat split; reflexivity.
Qed.

(** C1, as amended: on a tracked link, when [navigator.sendBeacon] is
    missing, the fallback is "wait", no modifier key is held, the button is
    not the middle one and the link's target is empty or is [_self],
    [_parent] or [_top] (in any letter case), the handler prevents the
    default action, creates a fresh hit callback (not yet run, for this
    link), hands it to the composition as the [hitCallback] default field,
    starts a timer for that same callback with [fallbackWait] as its delay
    and records its handle.  The timer waits the time [setTimeout] derives
    from that delay (the delay as a 32-bit integer, a negative one counting
    as 0): it is due [fallbackWait] ms from now when
    [0 <= fallbackWait < 2^31].  In every other case the event, the
    callbacks and the timers are untouched and the default fields carry no
    [hitCallback]. *)
Theorem wait_fallback_engaged_iff w ev l o t :
  opts (this w) = Some o → tracker (this w) = Some t →
  shouldTrackOutboundLink o (env w) (dom w l) parseUrl = true →
  let link := dom w l in
  let engaged :=
    hasSendBeacon (env w) = false ∧ fallback o = Some "wait" ∧
    ctrlKey ev = false ∧ shiftKey ev = false ∧ metaKey ev = false ∧
    which ev ≠ 2 ∧
    (target link = "" ∨
     toLower (target link) = "_self" ∨ toLower (target link) = "_parent" ∨
     toLower (target link) = "_top") in
  let cb := length (closures w) in
  let '(c, ev', w') :=
    handleLinkInteractions parseUrl getAttributeFields createFieldsObj
      ev l w in
  (engaged →
     defaultPrevented ev' = true ∧
     closures w' =
       closures w ++ [{| cl_link := l; hitCallbackHasRun := false |}] ∧
     timers w' =
       timers w ++ [{| handle := next_handle w; callback := cb;
                       due := now w + timerDelay (fallbackWait o) |}] ∧
     ((0 ≤ fallbackWait o < 2 ^ 31)%Z →
      timers w' =
        timers w ++ [{| handle := next_handle w; callback := cb;
                        due := now w + fallbackWait o |}]) ∧
     fallbackTimeout (this w') = Some (next_handle w) ∧
     (c, calls w') =
       afterSend t
         (createFieldsObj
            (<["hitCallback" := VFun cb]> (defaultFields ev link))
            (userFieldsOf o link) t (hitFilter o) link)
         (calls w)) ∧
  (¬ engaged →
     ev' = ev ∧ closures w' = closures w ∧ timers w' = timers w ∧
     next_handle w' = next_handle w ∧
     fallbackTimeout (this w') = fallbackTimeout (this w) ∧
     defaultFields ev link !! "hitCallback" = None ∧
     (c, calls w') =
       afterSend t
         (createFieldsObj (defaultFields ev link) (userFieldsOf o link) t
            (hitFilter o) (dom w' l))
         (calls w)).
Proof.
  intros Ho Ht Hs link engaged cb.
  pose proof (handler_wait_or_idle w ev l o t Ho Ht Hs) as H.
  cbv zeta in H. fold link cb in H.
  pose proof (noTarget_condition link ev) as Hn.
  destruct (handler ev l w) as [[c ev'] w'].
  destruct H as [He Hi]. split.
  - intros (Hb & Hf & Hcond).
    destruct He as (H1 & H2 & H3 & H4 & H5).
    { split; [exact Hb|]. split; [exact Hf|]. apply Hn. exact Hcond. }
    split; [exact H1|]. split; [exact H2|]. split; [exact H3|].
    split; [|split; [exact H4|exact H5]].
    intros Hr. rewrite H3, (timerDelay_in_range _ Hr). reflexivity.
  - intros Hne. apply Hi. intros (Hb & Hf & Hnone). apply Hne.
    split; [exact Hb|]. split; [exact Hf|]. apply Hn. exact Hnone.
Qed.

Lemma modifier_target link ev :
  ctrlKey ev = true ∨ shiftKey ev = true ∨ metaKey ev = true ∨ which ev = 2 →
  navigationTarget link ev = Some "_blank".
Proof.
  intros H. unfold navigationTarget, modifierOrMiddle.
  destruct H as [-> | [-> | [-> | ->]]]; simpl;
    rewrite ?orb_true_r; reflexivity.
Qed.

(** C4: on a tracked link, when ctrl, shift or meta is held or the middle
    button is used, the navigation target is "_blank" whatever target the
    link declares, and the "wait" branch is not taken: the event is not
    prevented, no hit callback and no timer are created, and the
    composition receives the default fields without [hitCallback]. *)
Theorem modifier_click_never_waits w ev l o t :
  opts (this w) = Some o → tracker (this w) = Some t →
  shouldTrackOutboundLink o (env w) (dom w l) parseUrl = true →
  ctrlKey ev = true ∨ shiftKey ev = true ∨ metaKey ev = true ∨ which ev = 2 →
  let link := dom w l in
  navigationTarget link ev = Some "_blank" ∧
  let '(c, ev', w') := handler ev l w in
  ev' = ev ∧ closures w' = closures w ∧ timers w' = timers w ∧
  next_handle w' = next_handle w ∧
  fallbackTimeout (this w') = fallbackTimeout (this w) ∧
  (c, calls w') =
    afterSend t
      (createFieldsObj (defaultFields ev link) (userFieldsOf o link) t
         (hitFilter o) (dom w' l))
      (calls w).
Proof.
  intros Ho Ht Hs Hm link.
  pose proof (modifier_target link ev Hm) as Hn. split; [exact Hn|].
  destruct (handler_idle w ev l o t Ho Ht Hs) as (w1 & Hw & ->).
  { right; right. fold link. congruence. }
  fold link. destruct (createFieldsObj _ _ _ _ (dom w1 l)) eqn:Hc;
    cbv beta iota zeta; unfold tracker_send, set_calls; cbn [dom calls];
    rewrite Hc; destruct Hw as [-> | ->]; repeat split; reflexivity.
Qed.

(** Line 111 on a tracked link: the composition of the default fields,
    with the hit callback when the "wait" fallback is engaged, is what
    the tracker is sent; a failing composition is rethrown. *)
Lemma handler_sends w ev l o t :
  opts (this w) = Some o → tracker (this w) = Some t →
  shouldTrackOutboundLink o (env w) (dom w l) parseUrl = true →
  ∃ df : Fields,
    (df = defaultFields ev (dom w l) ∨
     df = <["hitCallback" := VFun (length (closures w))]>
            (defaultFields ev (dom w l))) ∧
    ((handler ev l w).1.1, calls (handler ev l w).2) =
    afterSend t
      (createFieldsObj df (userFieldsOf o (dom w l)) t (hitFilter o)
         (dom (handler ev l w).2 l))
      (calls w).
Proof.
  intros Ho Ht Hs.
  destruct (hasSendBeacon (env w)) eqn:Hb;
    [|destruct (decide (fallback o = Some "wait")) as [Hf|Hf];
      [destruct (navigationTarget (dom w l) ev) eqn:Hn|]].
  3: { eexists. split; [right; reflexivity|].
       rewrite (handler_wait w ev l o t Ho Ht Hs Hb Hf Hn).
       destruct (createFieldsObj _ _ _ _ _) eqn:Hc; cbn [fst snd];
         unfold tracker_send, set_calls, set_fallbackTimeout, set_this,
           setTimeout, set_timers, createHitCallback, set_closures;
         cbn [dom calls fst snd]; rewrite Hc; reflexivity. }
  all: destruct (handler_idle w ev l o t Ho Ht Hs) as (w1 & Hw & ->);
    [first [left; exact Hb | right; left; exact Hf
           | right; right; congruence] | ].
  all: eexists; (split; [left; reflexivity|]);
    destruct (createFieldsObj _ _ _ _ (dom w1 l)) eqn:Hc; cbn [fst snd];
    unfold tracker_send, set_calls; cbn [dom calls]; rewrite Hc;
    destruct Hw as [-> | ->]; reflexivity.
Qed.

(** C5: on a tracked link the handler composes the hit from the default
    fields (transport "beacon", eventCategory "Outbound Link", eventAction
    the event's type, eventLabel the link's href, and the hit callback
    when the "wait" fallback is engaged), the user fields ([fieldsObj]
    overridden by the link's attribute fields), the tracker, the hit
    filter and the link, and passes the result to the tracker: with the
    field set the composition returns, the tracker receives exactly one
    call more, [send('event', fields)]. *)
Theorem tracked_interaction_sends_one_event w ev l o t :
  opts (this w) = Some o → tracker (this w) = Some t →
  shouldTrackOutboundLink o (env w) (dom w l) parseUrl = true →
  let link := dom w l in
  let uf := assign (fieldsObj o)
              (getAttributeFields link (attributePrefix o)) in
  let '(c, ev', w') := handler ev l w in
  ∃ df : Fields,
    (df = defaultFields ev link ∨
     df = <["hitCallback" := VFun (length (closures w))]>
            (defaultFields ev link)) ∧
    df !! "transport" = Some (VStr "beacon") ∧
    df !! "eventCategory" = Some (VStr "Outbound Link") ∧
    df !! "eventAction" = Some (VStr (type ev)) ∧
    df !! "eventLabel" = Some (VStr (href link)) ∧
    (c, calls w') =
      afterSend t (createFieldsObj df uf t (hitFilter o) (dom w' l))
        (calls w) ∧
    ∀ f, createFieldsObj df uf t (hitFilter o) (dom w' l) = Composed f →
         c = Returned ∧ calls w' = calls w ++ [Send t "event" f].
Proof.
  intros Ho Ht Hs link uf.
  destruct (handler_sends w ev l o t Ho Ht Hs) as (df & Hdf & He).
  fold link in Hdf, He. change (userFieldsOf o link) with uf in He.
  destruct (handler ev l w) as [[c ev'] w']. cbn [fst snd] in He.
  exists df. split; [exact Hdf|].
  assert (Hl : df !! "transport" = Some (VStr "beacon") ∧
               df !! "eventCategory" = Some (VStr "Outbound Link") ∧
               df !! "eventAction" = Some (VStr (type ev)) ∧
               df !! "eventLabel" = Some (VStr (href link))).
  { destruct Hdf as [-> | ->]; repeat split; reflexivity. }
  destruct Hl as (L1 & L2 & L3 & L4).
  repeat (split; [assumption|]).
  intros f Hf. rewrite Hf in He. simpl in He. inversion He. auto.
Qed.

(** C7: when the configured predicate is false for the link, the handler
    returns normally and has no effect: the event (with its
    [defaultPrevented] flag) and the whole world (the link's target, the
    timers, the callbacks, the calls received by the tracker) are the
    ones it was given. *)
Theorem untracked_interaction_no_effect w ev l o :
  opts (this w) = Some o →
  shouldTrackOutboundLink o (env w) (dom w l) parseUrl = false →
  handleLinkInteractions parseUrl getAttributeFields createFieldsObj ev l w =
  (Returned, ev, w).
Proof.
  intros Ho Hs. unfold handleLinkInteractions. rewrite Ho, Hs. reflexivity.
Qed.

(** C10: constructed without [window.addEventListener], the instance has
    no [opts], no [tracker] and no [delegates] and no listener was added;
    [remove()] and [handleLinkInteractions] on it throw a TypeError (and
    leave the world as it is). *)
Theorem unsupported_construction_then_throws t ov w :
  hasAddEventListener (env w) = false →
  let w' := OutboundLinkTracker t ov w in
  opts (this w') = None ∧ tracker (this w') = None ∧
  delegates (this w') = None ∧ listeners w' = listeners w ∧
  remove w' = (Threw TypeError, w') ∧
  ∀ ev l, handler ev l w' = (Threw TypeError, ev, w').
Proof.
  intros He w'. unfold w', OutboundLinkTracker. simpl. rewrite He. simpl.
  repeat split; reflexivity.
Qed.

(** ** What every transition preserves *)

Lemma evolves_refl w : evolves w w.
Proof. unfold evolves. tauto. Qed.

Lemma evolves_trans w1 w2 w3 : evolves w1 w2 → evolves w2 w3 → evolves w1 w3.
Proof.
  unfold evolves. intros (A1 & A2 & A3 & A4 & A5 & A6)
    (B1 & B2 & B3 & B4 & B5 & B6).
  repeat split; try congruence; auto.
Qed.

Lemma has_run_insert cb cb' c (w w' : World) :
  closures w !! cb' = Some c → has_run cb w →
  closures w' = <[cb' := {| cl_link := cl_link c;
                            hitCallbackHasRun := true |}]> (closures w) →
  has_run cb w'.
Proof.
  intros Hc (c0 & H0 & Hr) Hw'. unfold has_run. rewrite Hw'.
  destruct (decide (cb' = cb)) as [->|Hne].
  - exists {| cl_link := cl_link c; hitCallbackHasRun := true |}.
    split; [|reflexivity].
    apply list_lookup_insert_eq. eapply lookup_lt_Some; eauto.
  - exists c0. split; [|exact Hr]. rewrite list_lookup_insert_ne; auto.
Qed.

Lemma hitCallback_evolves cb w : evolves w (hitCallback cb w).
Proof.
  unfold hitCallback. destruct (closures w !! cb) as [c|] eqn:Hc;
    [|apply evolves_refl].
  destruct (hitCallbackHasRun c); [apply evolves_refl|].
  unfold evolves, assign_location, clearTimeout.
  destruct (fallbackTimeout (this w)); simpl; repeat split; auto;
    intros cb0 H0;
    apply (has_run_insert cb0 cb c w _ Hc H0); reflexivity.
Qed.

Lemma hitCallback_calls cb w :
  calls (hitCallback cb w) = calls w ∧
  listeners (hitCallback cb w) = listeners w.
Proof.
  unfold hitCallback. destruct (closures w !! cb) as [c|]; [|auto].
  destruct (hitCallbackHasRun c); [auto|].
  unfold assign_location, clearTimeout.
  destruct (fallbackTimeout (this w)); simpl; auto.
Qed.

(** A hit callback that has run does nothing. *)
Lemma hitCallback_has_run cb w : has_run cb w → hitCallback cb w = w.
Proof.
  intros (c & Hc & Hr). unfold hitCallback. rewrite Hc, Hr. reflexivity.
Qed.

Lemma applyFallback_evolves o tgt l df ev w df' ev' w' :
  applyFallback o tgt l (df, ev, w) = (df', ev', w') →
  evolves w w' ∧ calls w' = calls w ∧ listeners w' = listeners w.
Proof.
  unfold applyFallback.
  destruct (negb (hasSendBeacon (env w)) && truthy_opt (fallback o)).
  2: { intros [= <- <- <-]. split; [apply evolves_refl|auto]. }
  destruct (strict_eq (fallback o) "_blank").
  { intros [= <- <- <-]. unfold evolves. simpl. tauto. }
  destruct (strict_eq (fallback o) "wait" && noTarget tgt).
  2: { intros [= <- <- <-]. split; [apply evolves_refl|auto]. }
  intros [= <- <- <-]. unfold evolves, has_run. simpl.
  repeat split; auto.
  intros cb (c & Hc & Hr). exists c. split; [|exact Hr].
  rewrite lookup_app_l; [exact Hc|]. eapply lookup_lt_Some; eauto.
Qed.

Lemma handler_evolves ev l w :
  evolves w (handler ev l w).2 ∧
  listeners (handler ev l w).2 = listeners w.
Proof.
  unfold handleLinkInteractions.
  destruct (opts (this w)) as [o|]; [|split; [apply evolves_refl|auto]].
  destruct (shouldTrackOutboundLink o (env w) (dom w l) parseUrl);
    [|split; [apply evolves_refl|auto]].
  destruct (applyFallback o _ l _) as [[df ev1] w1] eqn:Ha.
  apply applyFallback_evolves in Ha as (He & _ & Hl).
  destruct (tracker (this w1)) as [t|]; [|split; assumption].
  destruct (createFieldsObj _ _ _ _ _); [|split; assumption].
  split; [|exact Hl]. eapply evolves_trans; [exact He|].
  unfold evolves, has_run. simpl. tauto.
Qed.

Lemma fire_evolves tm w :
  evolves w (fire tm w) ∧ calls (fire tm w) = calls w ∧
  listeners (fire tm w) = listeners w.
Proof.
  unfold fire. split.
  - eapply evolves_trans; [|apply hitCallback_evolves].
    unfold evolves, has_run. simpl. tauto.
  - cbv zeta.
    match goal with
    | |- context [hitCallback ?c ?W] =>
      destruct (hitCallback_calls c W) as [-> ->]
    end.
    split; reflexivity.
Qed.

Lemma run_timers_evolves fuel t w :
  evolves w (run_timers fuel t w) ∧ calls (run_timers fuel t w) = calls w ∧
  listeners (run_timers fuel t w) = listeners w.
Proof.
  revert w. induction fuel as [|fuel IH]; intros w; simpl.
  - split; [apply evolves_refl|auto].
  - destruct (next_due t w) as [tm|]; [|split; [apply evolves_refl|auto]].
    destruct (fire_evolves tm w) as (E1 & C1 & L1).
    destruct (IH (fire tm w)) as (E2 & C2 & L2).
    split; [eapply evolves_trans; eauto|]. split; congruence.
Qed.

Lemma elapse_evolves d w :
  evolves w (elapse d w) ∧ calls (elapse d w) = calls w ∧
  listeners (elapse d w) = listeners w.
Proof.
  unfold elapse.
  destruct (run_timers_evolves (length (timers w)) (now w + Z.max 0 d) w)
    as (E & C & L).
  split; [|simpl; auto].
  eapply evolves_trans; [exact E|]. unfold evolves, has_run. simpl. tauto.
Qed.

Lemma deliver_evolves l st x :
  evolves st.2 (deliver parseUrl matches getAttributeFields createFieldsObj
                  l st x).2 ∧
  listeners (deliver parseUrl matches getAttributeFields createFieldsObj
               l st x).2 = listeners st.2.
Proof.
  destruct st as [ev w]. unfold deliver.
  destruct (String.eqb (l_event x) (type ev) && matches (l_selector x) _).
  - pose proof (handler_evolves ev l w) as H.
    destruct (handler ev l w) as [[c ev'] w']. exact H.
  - split; [apply evolves_refl|reflexivity].
Qed.

Lemma deliver_all_evolves l xs st :
  let st' := fold_left
               (deliver parseUrl matches getAttributeFields createFieldsObj l)
               xs st in
  evolves st.2 st'.2 ∧ listeners st'.2 = listeners st.2.
Proof.
  revert st. induction xs as [|x xs IH]; intros st; simpl.
  - split; [apply evolves_refl|reflexivity].
  - destruct (deliver_evolves l st x) as (E1 & L1).
    destruct (IH (deliver parseUrl matches getAttributeFields
                    createFieldsObj l st x)) as (E2 & L2).
    split; [eapply evolves_trans; eauto|congruence].
Qed.

Lemma dispatch_evolves ev l w :
  let w' := (dispatch parseUrl matches getAttributeFields createFieldsObj
               ev l w).2 in
  evolves w w' ∧ listeners w' = listeners w.
Proof. apply (deliver_all_evolves l (listeners w) (ev, w)). Qed.

Local Abbreviation stepP :=
  (step parseUrl matches getAttributeFields createFieldsObj).
Local Abbreviation runP :=
  (run parseUrl matches getAttributeFields createFieldsObj).

Lemma destroy_all_spec (kvs : list (string * nat)) w :
  let w' := fold_left (fun w kv => destroy kv.2 w) kvs w in
  evolves w w' ∧ calls w' = calls w ∧
  ∀ x, x ∈ listeners w' → x ∈ listeners w ∧ lid x ∉ kvs.*2.
Proof.
  revert w. induction kvs as [|[k d] kvs IH]; intros w; simpl.
  - split; [apply evolves_refl|]. split; [reflexivity|].
    intros x Hx. split; [exact Hx|]. apply not_elem_of_nil.
  - destruct (IH (destroy d w)) as (E & C & L).
    assert (E0 : evolves w (destroy d w)).
    { unfold evolves, has_run, destroy. simpl. repeat split; auto.
      intros x Hx. apply list_elem_of_filter in Hx. tauto. }
    split; [eapply evolves_trans; eauto|]. split; [exact C|].
    intros x Hx. apply L in Hx as [Hx Hn].
    unfold destroy in Hx. simpl in Hx.
    apply list_elem_of_filter in Hx as [Hd Hx].
    split; [exact Hx|]. apply not_elem_of_cons. auto.
Qed.

Lemma remove_evolves w :
  evolves w (remove w).2 ∧ calls (remove w).2 = calls w.
Proof.
  unfold remove. destruct (delegates (this w)) as [ds|]; simpl.
  - destruct (destroy_all_spec (map_to_list ds) w) as (E & C & _). auto.
  - split; [apply evolves_refl|reflexivity].
Qed.

Lemma step_evolves w s : evolves w (stepP w s).
Proof.
  destruct s as [ev l|d|cb|]; simpl.
  - apply dispatch_evolves.
  - apply elapse_evolves.
  - apply hitCallback_evolves.
  - apply remove_evolves.
Qed.

Lemma run_evolves ss w : evolves w (runP ss w).
Proof.
  revert w. induction ss as [|s ss IH]; intros w; simpl.
  - apply evolves_refl.
  - eapply evolves_trans; [apply step_evolves|apply IH].
Qed.

(** Without listeners nothing reaches the tracker any more. *)
Lemma step_quiet w s :
  listeners w = [] →
  listeners (stepP w s) = [] ∧ calls (stepP w s) = calls w.
Proof.
  intros Hl. destruct s as [ev l|d|cb|]; cbn [step].
  - unfold dispatch. rewrite Hl. simpl. auto.
  - destruct (elapse_evolves d w) as (_ & C & L).
    rewrite L, C. auto.
  - destruct (hitCallback_calls cb w) as [C L].
    rewrite L, C. auto.
  - destruct (remove_evolves w) as ((_ & _ & _ & _ & L & _) & C).
    split; [|exact C]. apply elem_of_nil_inv. intros x Hx.
    apply L in Hx. rewrite Hl in Hx. eapply not_elem_of_nil; eauto.
Qed.

Lemma run_quiet ss w :
  listeners w = [] →
  listeners (runP ss w) = [] ∧ calls (runP ss w) = calls w.
Proof.
  revert w. induction ss as [|s ss IH]; intros w Hl; simpl; [auto|].
  destruct (step_quiet w s Hl) as [L C].
  destruct (IH _ L) as [L' C']. rewrite L', C', C. auto.
Qed.

Lemma registry_covers_evolves w w' :
  evolves w w' → registry_covers w → registry_covers w'.
Proof.
  intros (_ & _ & _ & D & L & _) (ds & Hd & Hc).
  exists ds. split; [congruence|]. auto.
Qed.

(** A turn of the [forEach] for a name other than [__proto__]. *)
Lemma registerEvent_plain sel w e :
  e ≠ "__proto__" →
  registerEvent sel w e =
  set_delegates (insert e (next_listener w) <$> delegates (this w))
    (delegate e sel w).2.
Proof.
  intros He. unfold registerEvent. simpl.
  apply String.eqb_neq in He. rewrite He. reflexivity.
Qed.

(** A turn of the [forEach] touches the listeners and [delegates] only. *)
Lemma registerEvent_frame sel w e :
  env (registerEvent sel w e) = env w ∧
  opts (this (registerEvent sel w e)) = opts (this w) ∧
  tracker (this (registerEvent sel w e)) = tracker (this w) ∧
  fallbackTimeout (this (registerEvent sel w e)) = fallbackTimeout (this w) ∧
  dom (registerEvent sel w e) = dom w ∧
  calls (registerEvent sel w e) = calls w ∧
  timers (registerEvent sel w e) = timers w ∧
  next_handle (registerEvent sel w e) = next_handle w ∧
  closures (registerEvent sel w e) = closures w ∧
  navigations (registerEvent sel w e) = navigations w.
Proof.
  unfold registerEvent. simpl.
  destruct (String.eqb e "__proto__"); simpl; repeat split; reflexivity.
Qed.

(** The [forEach] of the constructor: one listener per event name, in
    order, each recorded under its name. *)
Lemma register_events sel evs w ds :
  delegates (this w) = Some ds →
  (∀ x, x ∈ listeners w → ds !! l_event x = Some (lid x)) →
  (∀ x, x ∈ listeners w → l_event x ∉ evs) →
  NoDup evs → "__proto__" ∉ evs →
  registry_covers (fold_left (registerEvent sel) evs w).
Proof.
  revert w ds. induction evs as [|e evs IH]; intros w ds Hd Hc Hf Hn Hp; simpl.
  - exists ds. auto.
  - apply NoDup_cons in Hn as [Hne Hn].
    apply not_elem_of_cons in Hp as [Hp0 Hp].
    rewrite registerEvent_plain by congruence.
    eapply (IH _ (<[e := next_listener w]> ds)); [| | |exact Hn|exact Hp].
    + simpl. rewrite Hd. reflexivity.
    + simpl. intros x Hx.
      apply elem_of_app in Hx as [Hx | Hx].
      * rewrite lookup_insert_ne; [auto|].
        intros ->. apply (Hf x Hx). left.
      * apply list_elem_of_singleton in Hx as ->. simpl.
        apply lookup_insert_eq.
    + simpl. intros x Hx.
      apply elem_of_app in Hx as [Hx | Hx].
      * intros Hin. apply (Hf x Hx). right. exact Hin.
      * apply list_elem_of_singleton in Hx as ->. exact Hne.
Qed.

Lemma register_events_names sel evs w :
  l_event <$> listeners (fold_left (registerEvent sel) evs w) =
  (l_event <$> listeners w) ++ evs.
Proof.
  revert w. induction evs as [|e evs IH]; intros w; simpl.
  - rewrite app_nil_r. reflexivity.
  - rewrite IH. unfold registerEvent. simpl.
    destruct (String.eqb e "__proto__"); simpl;
      rewrite fmap_app, <- app_assoc; reflexivity.
Qed.

Lemma remove_covered w :
  registry_covers w → (remove w).1 = Returned ∧ listeners (remove w).2 = [].
Proof.
  intros (ds & Hd & Hc). unfold remove. rewrite Hd. simpl.
  split; [reflexivity|]. apply elem_of_nil_inv. intros x Hx.
  destruct (destroy_all_spec (map_to_list ds) w) as (_ & _ & L).
  apply L in Hx as [Hx Hn]. apply Hn.
  apply Hc in Hx. apply elem_of_map_to_list in Hx.
  apply (list_elem_of_fmap_2 snd) in Hx. exact Hx.
Qed.

(** ** Claims about sequences of transitions *)

Lemma createHitCallback_fresh l w :
  closures (createHitCallback l w).2 !! (createHitCallback l w).1 =
  Some {| cl_link := l; hitCallbackHasRun := false |}.
Proof.
  unfold createHitCallback. simpl.
  rewrite lookup_app_r by reflexivity.
  rewrite Nat.sub_diag. reflexivity.
Qed.

(** C2: the first invocation of a hit callback (one whose
    [hitCallbackHasRun] is still false, as [createHitCallback] returns
    them) cancels the timer recorded in [this.fallbackTimeout] and then
    assigns the captured link to [document.location], once; whatever
    happens afterwards, every later invocation of that callback leaves
    the world as it is. *)
Theorem hitCallback_runs_once cb c w :
  closures w !! cb = Some c → hitCallbackHasRun c = false →
  let w1 := hitCallback cb w in
  timers w1 = timers (clearTimeout (fallbackTimeout (this w)) w) ∧
  navigations w1 = navigations w ++ [href (dom w (cl_link c))] ∧
  (∀ n, Nat.iter n (hitCallback cb) w1 = w1) ∧
  ∀ ss, hitCallback cb (runP ss w1) = runP ss w1.
Proof.
  intros Hc Hr w1.
  assert (H1 : has_run cb w1).
  { exists {| cl_link := cl_link c; hitCallbackHasRun := true |}.
    split; [|reflexivity]. unfold w1, hitCallback. rewrite Hc, Hr.
    destruct (fallbackTimeout (this w)); simpl;
      apply list_lookup_insert_eq; eapply lookup_lt_Some; eauto. }
  split; [|split; [|split]].
  - unfold w1, hitCallback. rewrite Hc, Hr.
    destruct (fallbackTimeout (this w)); reflexivity.
  - unfold w1, hitCallback. rewrite Hc, Hr.
    destruct (fallbackTimeout (this w)); reflexivity.
  - induction n as [|n IH]; simpl; [reflexivity|].
    rewrite IH. apply hitCallback_has_run, H1.
  - intros ss. apply hitCallback_has_run.
    destruct (run_evolves ss w1) as (_ & _ & _ & _ & _ & Hrun).
    apply Hrun, H1.
Qed.

(** When the configured event names are pairwise distinct and none is
    [__proto__]: after a construction with event-listener support one
    delegated listener per event name is on the document; whatever
    happened since, [remove()] returns normally and leaves no listener,
    and from then on no interaction, completion or timer makes the tracker
    receive anything. *)
Lemma distinct_names_are_all_detached e d t ov before after :
  hasAddEventListener e = true →
  NoDup (events (assign_opts default_opts ov)) →
  "__proto__" ∉ events (assign_opts default_opts ov) →
  let o := assign_opts default_opts ov in
  let w1 := OutboundLinkTracker t ov (initial_world e d) in
  let w2 := runP before w1 in
  l_event <$> listeners w1 = events o ∧
  (remove w2).1 = Returned ∧
  listeners (remove w2).2 = [] ∧
  calls (runP after (remove w2).2) = calls (remove w2).2.
Proof.
  intros He Hn Hp o w1 w2.
  assert (Hw1 : w1 = fold_left (registerEvent (linkSelector o)) (events o)
                 (set_this {| opts := Some o; tracker := Some t;
                              delegates := Some ∅;
                              fallbackTimeout := None |}
                    (usage_track t
                       (set_this blank_instance (initial_world e d))))).
  { unfold w1, OutboundLinkTracker. simpl. rewrite He. reflexivity. }
  assert (Hcov : registry_covers w1).
  { rewrite Hw1. eapply register_events; [reflexivity| | |exact Hn|exact Hp];
      simpl; intros x Hx; apply elem_of_nil in Hx; contradiction. }
  assert (Hcov2 : registry_covers w2).
  { eapply registry_covers_evolves; [apply run_evolves|exact Hcov]. }
  destruct (remove_covered w2 Hcov2) as [Hr Hl].
  split; [|split; [exact Hr|split; [exact Hl|]]].
  - rewrite Hw1, register_events_names. reflexivity.
  - apply run_quiet, Hl.
Qed.

(** ** Timers *)

Lemma earliest_in ts tm : earliest ts = Some tm → tm ∈ ts.
Proof.
  revert tm. induction ts as [|a ts IH]; intros tm; simpl; [discriminate|].
  destruct (earliest ts) as [b|].
  - destruct (Z.leb (due a) (due b)); intros [= <-];
      [left | right; apply IH; reflexivity].
  - intros [= <-]. left.
Qed.

Lemma earliest_le ts tm x : earliest ts = Some tm → x ∈ ts → (due tm ≤ due x)%Z.
Proof.
  revert tm. induction ts as [|a ts IH]; intros tm; simpl; [discriminate|].
  intros He Hx. apply elem_of_cons in Hx.
  destruct (earliest ts) as [b|] eqn:Eb.
  - specialize (IH b eq_refl).
    destruct (Z.leb_spec (due a) (due b)); injection He as <-;
      destruct Hx as [-> | Hx]; try lia; specialize (IH Hx); lia.
  - injection He as <-. destruct Hx as [-> | Hx]; [lia|].
    destruct ts; [apply elem_of_nil in Hx; contradiction|].
    simpl in Eb. destruct (earliest ts) as [b|];
      [destruct (Z.leb (due t) (due b))|]; discriminate.
Qed.

Lemma next_due_in t w tm :
  next_due t w = Some tm → tm ∈ timers w ∧ (due tm ≤ t)%Z.
Proof.
  unfold next_due. destruct (earliest (timers w)) as [a|] eqn:Ea;
    [|discriminate].
  destruct (Z.leb_spec (due a) t); intros [= <-].
  split; [apply earliest_in; exact Ea|assumption].
Qed.

Lemma next_due_some t w x :
  x ∈ timers w → (due x ≤ t)%Z → ∃ tm, next_due t w = Some tm.
Proof.
  intros Hx Hd. unfold next_due.
  destruct (earliest (timers w)) as [a|] eqn:Ea.
  - pose proof (earliest_le _ _ _ Ea Hx).
    destruct (Z.leb_spec (due a) t); [eauto|lia].
  - destruct (timers w) as [|b ts]; [apply elem_of_nil in Hx; contradiction|].
    simpl in Ea. destruct (earliest ts) as [c|];
      [destruct (Z.leb (due b) (due c))|]; discriminate.
Qed.

Lemma cancel_shorter ts tm :
  tm ∈ ts → (length (cancel (handle tm) ts) < length ts)%nat.
Proof.
  intros Hin. unfold cancel.
  apply (length_filter_lt _ _ tm); [exact Hin|]. intros H. apply H. reflexivity.
Qed.

Lemma hitCallback_timers cb w :
  (length (timers (hitCallback cb w)) ≤ length (timers w))%nat ∧
  dom (hitCallback cb w) = dom w.
Proof.
  unfold hitCallback. destruct (closures w !! cb) as [c|]; [|auto].
  destruct (hitCallbackHasRun c); [auto|].
  unfold assign_location, clearTimeout.
  destruct (fallbackTimeout (this w)); simpl; [|auto].
  split; [apply length_filter|reflexivity].
Qed.

Lemma fire_shorter tm w :
  tm ∈ timers w → (length (timers (fire tm w)) < length (timers w))%nat.
Proof.
  intros Hin. unfold fire. cbv zeta.
  match goal with
  | |- context [hitCallback ?c ?W] =>
    destruct (hitCallback_timers c W) as [Hl _]
  end.
  eapply Nat.le_lt_trans; [exact Hl|]. simpl. apply cancel_shorter, Hin.
Qed.

(** The fuel of [elapse] is enough: when the loop stops no timer that is
    due is left. *)
Lemma run_timers_complete fuel t w :
  (length (timers w) ≤ fuel)%nat → next_due t (run_timers fuel t w) = None.
Proof.
  revert w. induction fuel as [|fuel IH]; intros w Hl; simpl.
  - destruct (timers w) eqn:Et; [|simpl in Hl; lia].
    unfold next_due. rewrite Et. reflexivity.
  - destruct (next_due t w) as [tm|] eqn:En; [|exact En].
    apply IH. apply next_due_in in En as [Hin _].
    pose proof (fire_shorter tm w Hin). lia.
Qed.

Lemma elapse_fires_all_due d w tm :
  tm ∈ timers (elapse d w) → (now (elapse d w) < due tm)%Z.
Proof.
  unfold elapse. simpl. intros Hin.
  pose proof (run_timers_complete (length (timers w)) (now w + Z.max 0 d) w
                (Nat.le_refl _)) as Hc.
  destruct (Z.lt_ge_cases (now w + Z.max 0 d) (due tm)) as [|Hle]; [assumption|].
  destruct (next_due_some _ _ tm Hin Hle) as [x Hx]. congruence.
Qed.

Lemma elapse_no_timers d w :
  timers w = [] → navigations (elapse d w) = navigations w.
Proof. intros Ht. unfold elapse. rewrite Ht. reflexivity. Qed.

(** A timer of a hit callback that has run only leaves the table. *)
Lemma fire_has_run tm w :
  has_run (callback tm) w →
  fire tm w = set_now (Z.max (now w) (due tm))
                (set_timers (cancel (handle tm) (timers w)) (next_handle w) w).
Proof. intros H. unfold fire. apply hitCallback_has_run. exact H. Qed.

Lemma run_timers_settled fuel t w :
  settled w →
  navigations (run_timers fuel t w) = navigations w.
Proof.
  revert w. induction fuel as [|fuel IH]; intros w Hs; simpl; [reflexivity|].
  destruct (next_due t w) as [tm|] eqn:En; [|reflexivity].
  apply next_due_in in En as [Hin _].
  rewrite (fire_has_run tm w (Hs tm Hin)). rewrite IH; [reflexivity|].
  intros x Hx. simpl in Hx. apply list_elem_of_filter in Hx as [_ Hx].
  apply (Hs x Hx).
Qed.

(** When the timer of a callback that has not run is due by [t], running
    the timers up to [t] performs its navigation, and no other. *)
Lemma run_timers_awaiting h cb l fuel t w :
  awaiting h cb l t w → (length (timers w) ≤ fuel)%nat →
  navigations (run_timers fuel t w) = navigations w ++ [href (dom w l)].
Proof.
  revert w. induction fuel as [|fuel IH];
    intros w (Hc & Hf & (tm0 & Hin0 & Hh0 & Hd0) & Hall) Hlen.
  { destruct (timers w); [apply elem_of_nil in Hin0; contradiction|].
    simpl in Hlen. lia. }
  simpl. destruct (next_due_some t w tm0 Hin0 Hd0) as [tm En]. rewrite En.
  apply next_due_in in En as [Hin Hd].
  pose proof (Hall tm Hin) as Htm.
  destruct (decide (handle tm = h)) as [Hh|Hh].
  - (* the awaited timer fires *)
    unfold fire. cbv zeta. unfold hitCallback at 1. simpl.
    rewrite Htm, Hc. simpl. rewrite Hf. simpl.
    rewrite run_timers_settled; [reflexivity|].
    intros x Hx. simpl in Hx.
    apply list_elem_of_filter in Hx as [Hx1 Hx].
    apply list_elem_of_filter in Hx as [_ Hx].
    pose proof (Hall x Hx) as Hx2.
    destruct (decide (handle x = h)); [contradiction|].
    eapply (has_run_insert _ cb _ w); [exact Hc|exact Hx2|reflexivity].
  - (* the timer of a callback that has run fires *)
    rewrite (fire_has_run tm w Htm).
    rewrite IH; [reflexivity| |].
    + split; [exact Hc|]. split; [exact Hf|]. split.
      * exists tm0. split; [|auto]. simpl.
        apply list_elem_of_filter. split; [congruence|exact Hin0].
      * intros x Hx. simpl in Hx.
        apply list_elem_of_filter in Hx as [_ Hx]. exact (Hall x Hx).
    + simpl. pose proof (cancel_shorter _ _ Hin). lia.
Qed.

(** After the "wait" branch, when the earlier pending timers (if any)
    belong to hit callbacks that have run, the deferred navigation has
    happened once the delay of the timer has passed, whether or not the
    hit was sent. *)
Lemma wait_then_timeout w ev l o t d :
  opts (this w) = Some o → tracker (this w) = Some t →
  shouldTrackOutboundLink o (env w) (dom w l) parseUrl = true →
  hasSendBeacon (env w) = false → fallback o = Some "wait" →
  navigationTarget (dom w l) ev = None →
  (∀ tm, tm ∈ timers w →
         handle tm ≠ next_handle w ∧ has_run (callback tm) w) →
  (timerDelay (fallbackWait o) ≤ Z.max 0 d)%Z →
  navigations (elapse d (handler ev l w).2) =
  navigations w ++ [href (dom w l)].
Proof.
  intros Ho Ht Hs Hb Hf Hn Hold Hd.
  rewrite (handler_wait w ev l o t Ho Ht Hs Hb Hf Hn).
  set (cb := length (closures w)).
  set (w1 := set_fallbackTimeout (Some (next_handle w))
               (snd (setTimeout cb (fallbackWait o)
                  (snd (createHitCallback l w))))).
  assert (Haw : ∀ w2, closures w2 = closures w1 → this w2 = this w1 →
                  timers w2 = timers w1 → now w2 = now w →
                  awaiting (next_handle w) cb l (now w2 + Z.max 0 d) w2).
  { intros w2 Hcl Hth Hti Hno. unfold awaiting.
    rewrite Hcl, Hth, Hti, Hno. unfold has_run. rewrite Hcl. simpl.
    split; [unfold cb; rewrite lookup_app_r by reflexivity;
            rewrite Nat.sub_diag; reflexivity|].
    split; [reflexivity|]. split.
    - eexists. split; [apply elem_of_app; right; left|].
      simpl. split; [reflexivity|lia].
    - intros x Hx. apply elem_of_app in Hx as [Hx | Hx].
      + destruct (Hold x Hx) as [Hne (c & Hc & Hr)].
        destruct (decide (handle x = next_handle w)); [contradiction|].
        exists c. split; [|exact Hr].
        rewrite lookup_app_l; [exact Hc|]. eapply lookup_lt_Some; eauto.
      + apply list_elem_of_singleton in Hx as ->. simpl.
        destruct (decide (next_handle w = next_handle w)); congruence. }
  destruct (createFieldsObj _ _ _ _ _); cbn [snd]; unfold elapse;
    cbn [navigations set_now];
    erewrite run_timers_awaiting; try reflexivity;
    apply Haw; reflexivity.
Qed.

(** With the "wait" fallback engaged, a composition that throws makes the
    handler throw (nothing is sent), after the default action was
    prevented and the timer for the hit callback was started; so, when no
    earlier timer of a callback that has yet to run is pending, the
    deferred navigation to the link has happened once the delay of the
    timer has passed. *)
Lemma composition_failure_alone_keeps_fallback w ev l o t :
  opts (this w) = Some o → tracker (this w) = Some t →
  shouldTrackOutboundLink o (env w) (dom w l) parseUrl = true →
  hasSendBeacon (env w) = false → fallback o = Some "wait" →
  navigationTarget (dom w l) ev = None →
  let link := dom w l in
  let cb := length (closures w) in
  createFieldsObj (<["hitCallback" := VFun cb]> (defaultFields ev link))
    (userFieldsOf o link) t (hitFilter o) link = ComposeThrew →
  let '(c, ev', w') := handler ev l w in
  c = Threw Exception ∧ calls w' = calls w ∧
  defaultPrevented ev' = true ∧
  timers w' =
    timers w ++ [{| handle := next_handle w; callback := cb;
                    due := now w + timerDelay (fallbackWait o) |}] ∧
  ((∀ tm, tm ∈ timers w →
          handle tm ≠ next_handle w ∧ has_run (callback tm) w) →
   ∀ d, (timerDelay (fallbackWait o) ≤ Z.max 0 d)%Z →
        navigations (elapse d w') = navigations w ++ [href link]).
Proof.
  intros Ho Ht Hs Hb Hf Hn link cb Hthrow.
  pose proof (wait_then_timeout w ev l o t) as Hnav.
  rewrite (handler_wait w ev l o t Ho Ht Hs Hb Hf Hn) in *.
  fold link cb in Hnav |- *. rewrite Hthrow in *. cbn [snd] in Hnav.
  repeat split; try reflexivity.
  intros Hold d Hd. apply Hnav; assumption.
Qed.

(** ** Timer handles in reachable worlds *)

Lemma timers_evolve_refl w : timers_evolve w w.
Proof. split; [lia|auto]. Qed.

Lemma timers_evolve_trans w1 w2 w3 :
  timers_evolve w1 w2 → timers_evolve w2 w3 → timers_evolve w1 w3.
Proof.
  intros [A1 A2] [B1 B2]. split; [lia|]. intros tm H.
  destruct (B2 tm H) as [H2|H2]; [|right; lia].
  destruct (A2 tm H2) as [H1|H1]; [left; exact H1|right; lia].
Qed.

Lemma timers_evolve_shrink w w' :
  next_handle w' = next_handle w →
  (∀ tm, tm ∈ timers w' → tm ∈ timers w) → timers_evolve w w'.
Proof. intros Hn Hs. split; [lia|]. intros tm H. left. auto. Qed.

Lemma hitCallback_timers_evolve cb w : timers_evolve w (hitCallback cb w).
Proof.
  unfold hitCallback. destruct (closures w !! cb) as [c|];
    [|apply timers_evolve_refl].
  destruct (hitCallbackHasRun c); [apply timers_evolve_refl|].
  apply timers_evolve_shrink; unfold assign_location, clearTimeout;
    destruct (fallbackTimeout (this w)); simpl; auto.
  intros tm H. apply list_elem_of_filter in H. tauto.
Qed.

Lemma handler_timers_evolve ev l w : timers_evolve w (handler ev l w).2.
Proof.
  unfold handleLinkInteractions.
  destruct (opts (this w)) as [o|]; [|apply timers_evolve_refl].
  destruct (shouldTrackOutboundLink o (env w) (dom w l) parseUrl);
    [|apply timers_evolve_refl].
  assert (Ha : ∀ df ev1 w1,
             applyFallback o (navigationTarget (dom w l) ev) l
               (defaultFields ev (dom w l), ev, w) = (df, ev1, w1) →
             timers_evolve w w1).
  { unfold applyFallback.
    destruct (negb (hasSendBeacon (env w)) && truthy_opt (fallback o));
      [|intros ? ? ? [= <- <- <-]; apply timers_evolve_refl].
    destruct (strict_eq (fallback o) "_blank");
      [intros ? ? ? [= <- <- <-]; apply timers_evolve_shrink; auto|].
    destruct (strict_eq (fallback o) "wait" && noTarget _);
      [|intros ? ? ? [= <- <- <-]; apply timers_evolve_refl].
    intros ? ? ? [= <- <- <-]. split; simpl; [lia|].
    intros tm H. apply elem_of_app in H as [H|H]; [left; exact H|].
    apply list_elem_of_singleton in H as ->. simpl. right. lia. }
  destruct (applyFallback o _ l _) as [[df ev1] w1].
  specialize (Ha _ _ _ eq_refl).
  destruct (tracker (this w1)); [|exact Ha].
  destruct (createFieldsObj _ _ _ _ _); exact Ha.
Qed.

Lemma run_timers_timers_evolve fuel t w :
  timers_evolve w (run_timers fuel t w).
Proof.
  revert w. induction fuel as [|fuel IH]; intros w; simpl;
    [apply timers_evolve_refl|].
  destruct (next_due t w) as [tm|]; [|apply timers_evolve_refl].
  eapply timers_evolve_trans; [|apply IH].
  unfold fire. cbv zeta.
  eapply timers_evolve_trans; [|apply hitCallback_timers_evolve].
  apply timers_evolve_shrink; simpl; auto.
  intros x H. apply list_elem_of_filter in H. tauto.
Qed.

Lemma step_timers_evolve w s : timers_evolve w (stepP w s).
Proof.
  destruct s as [ev l|d|cb|]; cbn [step].
  - unfold dispatch. generalize (listeners w). intros xs.
    change w with (ev, w).2 at 1. generalize (ev, w). clear ev w.
    induction xs as [|x xs IH]; intros st; simpl;
      [apply timers_evolve_refl|].
    eapply timers_evolve_trans; [|apply IH].
    destruct st as [ev w]. unfold deliver.
    destruct (String.eqb (l_event x) (type ev) && matches _ _);
      [|apply timers_evolve_refl].
    pose proof (handler_timers_evolve ev l w) as H.
    destruct (handler ev l w) as [[c ev'] w']. exact H.
  - unfold elapse. eapply timers_evolve_trans;
      [apply run_timers_timers_evolve|].
    apply timers_evolve_shrink; auto.
  - apply hitCallback_timers_evolve.
  - unfold remove. destruct (delegates (this w)) as [ds|]; simpl;
      [|apply timers_evolve_refl].
    generalize (map_to_list ds). intros kvs. revert w.
    induction kvs as [|kv kvs IH]; intros w; simpl;
      [apply timers_evolve_refl|].
    eapply timers_evolve_trans; [|apply IH].
    apply timers_evolve_shrink; auto.
Qed.

Lemma handles_fresh_evolve w w' :
  timers_evolve w w' → handles_fresh w → handles_fresh w'.
Proof.
  intros [Hn Ht] Hf tm H. destruct (Ht tm H) as [H0|H0]; [|lia].
  specialize (Hf tm H0). lia.
Qed.

Lemma register_events_timers sel evs w :
  timers (fold_left (registerEvent sel) evs w) = timers w ∧
  next_handle (fold_left (registerEvent sel) evs w) = next_handle w.
Proof.
  revert w. induction evs as [|e evs IH]; intros w; simpl; [auto|].
  destruct (IH (registerEvent sel w e)) as [-> ->].
  destruct (registerEvent_frame sel w e)
    as (_ & _ & _ & _ & _ & _ & -> & -> & _). auto.
Qed.

Lemma construction_timers t ov w :
  timers (OutboundLinkTracker t ov w) = timers w ∧
  next_handle (OutboundLinkTracker t ov w) = next_handle w.
Proof.
  unfold OutboundLinkTracker. cbv zeta.
  destruct (negb (hasAddEventListener _)); [auto|].
  match goal with |- context [fold_left (registerEvent ?sel) ?evs ?W] =>
    destruct (register_events_timers sel evs W) as [-> ->]
  end.
  auto.
Qed.

(** In every world reached from a fresh page, the handle that
    [setTimeout] hands out next is not the handle of a pending timer. *)
Lemma reachable_handles_fresh e d t ov ss :
  handles_fresh (runP ss (OutboundLinkTracker t ov (initial_world e d))).
Proof.
  assert (H0 : handles_fresh (OutboundLinkTracker t ov (initial_world e d))).
  { intros tm H. destruct (construction_timers t ov (initial_world e d))
      as [Ht _]. rewrite Ht in H. apply elem_of_nil in H. contradiction. }
  revert H0. generalize (OutboundLinkTracker t ov (initial_world e d)).
  induction ss as [|s ss IH]; intros w Hw; simpl; [exact Hw|].
  apply IH. eapply handles_fresh_evolve; [apply step_timers_evolve|exact Hw].
Qed.

End Properties.

(** * The claims on the example page *)

Section Examples.

Local Abbreviation handle0 :=
  (handleLinkInteractions simpleParseUrl noAttributeFields plainCompose).
Local Abbreviation run0 :=
  (run simpleParseUrl anchorMatches noAttributeFields plainCompose).

(** A click on the outbound link 1, whose target is [_self], fallback
    "wait", no beacon; and a ctrl-click on it. *)
Lemma wait_fallback_engaged_iff_witness :
  let r := handle0 click 1 (waitPage false) in
  (defaultPrevented r.1.2 = true ∧
   timers r.2 = [{| handle := 1; callback := 0%nat; due := 500 |}] ∧
   fallbackTimeout (this r.2) = Some 1%nat) ∧
  (handle0 ctrlClick 1 (waitPage false)).1.2 = ctrlClick.
Proof.
  pose proof (wait_fallback_engaged_iff simpleParseUrl noAttributeFields
                plainCompose (waitPage false) click 1 waitOpts theTracker
                eq_refl eq_refl eq_refl) as H.
  pose proof (wait_fallback_engaged_iff simpleParseUrl noAttributeFields
                plainCompose (waitPage false) ctrlClick 1 waitOpts theTracker
                eq_refl eq_refl eq_refl) as H'.
  cbv zeta in H, H' |- *.
  destruct (handle0 click 1 (waitPage false)) as [[c ev'] w'].
  destruct (handle0 ctrlClick 1 (waitPage false)) as [[c2 ev2] w2].
  destruct H as [H _]. destruct H' as [_ H'].
  split.
  - destruct H as (H1 & _ & _ & H3 & H4 & _).
    { split; [reflexivity|]. split; [reflexivity|].
      split; [reflexivity|]. split; [reflexivity|].
      split; [reflexivity|]. split; [discriminate|].
      right. left. reflexivity. }
    simpl. rewrite H3, H4 by (split; [discriminate|reflexivity]).
    split; [exact H1|]. split; reflexivity.
  - destruct H' as (H1 & _).
    { intros (_ & _ & Hc & _). discriminate Hc. }
    exact H1.
Defined.

(** The hit callback of that click, invoked by the completion of the send
    and then again by its timer. *)
Lemma hitCallback_runs_once_witness :
  let w := (handle0 click 0 (waitPage false)).2 in
  navigations (hitCallback 0 w) = ["https://other.example/x"] ∧
  timers (hitCallback 0 w) = [] ∧
  run0 [Elapse 500; HitSent 0] (hitCallback 0 w) =
  run0 [Elapse 500] (hitCallback 0 w).
Proof.
  intros w.
  destruct (hitCallback_runs_once simpleParseUrl anchorMatches
              noAttributeFields plainCompose 0 
              {| cl_link := 0; hitCallbackHasRun := false |} w
              eq_refl eq_refl) as (H1 & H2 & H3 & H4).
  split; [rewrite H2; reflexivity|]. split; [rewrite H1; reflexivity|].
  exact (H4 [Elapse 500]).
Defined.

Lemma modifier_click_never_waits_witness :
  navigationTarget (pageLinks 1) ctrlClick = Some "_blank" ∧
  (handle0 ctrlClick 1 (waitPage false)).1.2 = ctrlClick ∧
  timers (handle0 ctrlClick 1 (waitPage false)).2 = [].
Proof.
  pose proof (modifier_click_never_waits simpleParseUrl noAttributeFields
                plainCompose (waitPage false) ctrlClick 1 waitOpts
                theTracker eq_refl eq_refl eq_refl (or_introl eq_refl)) as H.
  cbv zeta in H. destruct H as [H0 H].
  destruct (handle0 ctrlClick 1 (waitPage false)) as [[c ev'] w'].
  destruct H as (H1 & _ & H3 & _). simpl. rewrite H3.
  repeat split; assumption.
Defined.

Lemma tracked_interaction_sends_one_event_witness :
  ∃ f : Fields,
    calls (handle0 click 0 (waitPage true)).2 =
      [UsageTrack theTracker; Send theTracker "event" f] ∧
    f !! "eventCategory" = Some (VStr "Outbound Link") ∧
    f !! "eventLabel" = Some (VStr "https://other.example/x").
Proof.
  pose proof (tracked_interaction_sends_one_event simpleParseUrl
                noAttributeFields plainCompose (waitPage true) click 0
                waitOpts theTracker eq_refl eq_refl eq_refl) as H.
  cbv zeta in H.
  destruct (handle0 click 0 (waitPage true)) as [[c ev'] w'].
  destruct H as (df & Hdf & _ & _ & _ & _ & _ & Hs).
  destruct (Hs (assign df (assign ∅ ∅)) eq_refl) as [_ Hc].
  exists (assign df (assign ∅ ∅)). split.
  - simpl. rewrite Hc. reflexivity.
  - destruct Hdf as [-> | ->]; split; reflexivity.
Defined.

(** Link 2 is on the page's own host. *)
Lemma untracked_interaction_no_effect_witness :
  handle0 click 2 (waitPage false) = (Returned, click, waitPage false).
Proof.
  apply (untracked_interaction_no_effect simpleParseUrl noAttributeFields
           plainCompose (waitPage false) click 2 waitOpts);
    reflexivity.
Defined.

Lemma composition_failure_alone_keeps_fallback_example :
  let r := handleLinkInteractions simpleParseUrl noAttributeFields
             failingCompose click 0 (waitPage false) in
  r.1.1 = Threw Exception ∧
  navigations (elapse 500 r.2) = ["https://other.example/x"].
Proof.
  pose proof (composition_failure_alone_keeps_fallback simpleParseUrl
                noAttributeFields failingCompose (waitPage false) click 0
                waitOpts theTracker eq_refl eq_refl eq_refl eq_refl eq_refl
                eq_refl eq_refl) as H.
  cbv zeta in H |- *.
  destruct (handleLinkInteractions simpleParseUrl noAttributeFields
              failingCompose click 0 (waitPage false)) as [[c ev'] w'].
  destruct H as (H1 & _ & _ & _ & H5). split; [exact H1|].
  apply H5.
  - intros tm Htm. apply elem_of_nil in Htm. contradiction.
  - reflexivity.
Defined.

Lemma distinct_names_are_all_detached_example :
  let w := OutboundLinkTracker theTracker waitOverlay
             (initial_world (pageEnv false) pageLinks) in
  listeners (remove (run0 [Interact click 0] w)).2 = [] ∧
  calls (run0 [Interact click 0; Interact click 1]
           (remove (run0 [Interact click 0] w)).2) =
  calls (remove (run0 [Interact click 0] w)).2.
Proof.
  intros w.
  assert (Hn : NoDup (events (assign_opts default_opts waitOverlay))).
  { change (NoDup ["click"]). apply NoDup_cons.
    split; [apply not_elem_of_nil|]. apply NoDup_nil. exact I. }
  assert (Hp : "__proto__" ∉ events (assign_opts default_opts waitOverlay)).
  { change ("__proto__" ∉ ["click"]). apply not_elem_of_cons.
    split; [discriminate|apply not_elem_of_nil]. }
  destruct (distinct_names_are_all_detached simpleParseUrl anchorMatches
              noAttributeFields plainCompose (pageEnv false) pageLinks
              theTracker waitOverlay [Interact click 0]
              [Interact click 0; Interact click 1] eq_refl Hn Hp)
    as (_ & _ & H3 & H4).
  split; assumption.
Defined.

(** A repeated event name overwrites its entry of [this.delegates], and the
    listener registered first stays. *)
Lemma repeated_event_name_keeps_a_listener :
  let w := OutboundLinkTracker theTracker twiceOverlay
             (initial_world (pageEnv true) pageLinks) in
  listeners w = [{| lid := 0; l_event := "click"; l_selector := "a" |};
                 {| lid := 1; l_event := "click"; l_selector := "a" |}] ∧
  listeners (remove w).2 =
    [{| lid := 0; l_event := "click"; l_selector := "a" |}].
Proof. split; vm_compute; reflexivity. Qed.

Lemma unsupported_construction_then_throws_witness :
  let w := OutboundLinkTracker theTracker no_overlay
             (initial_world oldBrowserEnv pageLinks) in
  remove w = (Threw TypeError, w) ∧
  handle0 click 0 w = (Threw TypeError, click, w).
Proof.
  intros w.
  destruct (unsupported_construction_then_throws simpleParseUrl
              noAttributeFields plainCompose theTracker no_overlay
              (initial_world oldBrowserEnv pageLinks) eq_refl)
    as (_ & _ & _ & _ & H5 & H6).
  split; [exact H5|apply H6].
Defined.

Lemma shouldTrackOutboundLink_default_spec_witness :
  shouldTrackOutboundLink_default (pageEnv true) (pageLinks 0)
    simpleParseUrl = true ∧
  shouldTrackOutboundLink_default (pageEnv true) (pageLinks 2)
    simpleParseUrl = false.
Proof.
  split.
  - apply (shouldTrackOutboundLink_default_spec (pageEnv true) (pageLinks 0)
             simpleParseUrl).
    + vm_compute. discriminate.
    + right. reflexivity.
  - apply (shouldTrackOutboundLink_default_spec (pageEnv true) (pageLinks 2)
             simpleParseUrl).
    reflexivity.
Defined.

(** C3, on the page: link 0 is clicked, 100 ms later link 1 is clicked
    (both clicks have their default action prevented), and no send ever
    completes.  When the first timer fires, its callback clears
    [this.fallbackTimeout], which by then holds the handle of the second
    timer: the navigation to link 0 happens, no timer is left, the hit
    callback of the second click has not run, and however long one
    waits, the navigation of the second click never happens. *)
Theorem overlapping_clicks_block_second :
  defaultPrevented (dispatch simpleParseUrl anchorMatches noAttributeFields
                      plainCompose click 0 (waitPage false)).1 = true ∧
  defaultPrevented (dispatch simpleParseUrl anchorMatches noAttributeFields
                      plainCompose click 1 firstClicked).1 = true ∧
  navigations bothClicked = ["https://other.example/x"] ∧
  timers bothClicked = [] ∧
  closures bothClicked !! 1%nat =
    Some {| cl_link := 1; hitCallbackHasRun := false |} ∧
  ∀ d, navigations (elapse d bothClicked) = ["https://other.example/x"].
Proof.
  assert (Ht : timers bothClicked = []) by (vm_compute; reflexivity).
  assert (Hn : navigations bothClicked = ["https://other.example/x"])
    by (vm_compute; reflexivity).
  split; [vm_compute; reflexivity|]. split; [vm_compute; reflexivity|].
  split; [exact Hn|]. split; [exact Ht|].
  split; [vm_compute; reflexivity|].
  intros d. rewrite (elapse_no_timers d bothClicked Ht). exact Hn.
Qed.

(** C1, counterexample: with [fallbackWait: 3000000000] the timer that the
    click on link 0 starts is not due 3000000000 ms from now but at once
    (the delay does not fit 32 bits), and 100 ms later the deferred
    navigation has already happened. *)
Lemma long_fallbackWait_fires_at_once :
  fallbackWait longWaitOpts = 3000000000 ∧
  timers longWaitClicked =
    [{| handle := 1; callback := 0%nat; due := now longWaitPage |}] ∧
  (∀ tm, tm ∈ timers longWaitClicked →
         due tm ≠ now longWaitPage + fallbackWait longWaitOpts) ∧
  navigations (elapse 100 longWaitClicked) = ["https://other.example/x"].
Proof.
  assert (Ht : timers longWaitClicked =
               [{| handle := 1; callback := 0%nat; due := now longWaitPage |}])
    by (vm_compute; reflexivity).
  split; [reflexivity|]. split; [exact Ht|]. split.
  - intros tm Htm. rewrite Ht in Htm.
    apply list_elem_of_singleton in Htm as ->. vm_compute. discriminate.
  - vm_compute. reflexivity.
Qed.

(** C8, on the page: link 0 was clicked 100 ms ago and its send has not
    completed; link 1 is clicked and the composition of its hit throws.
    The handler throws after it prevented the default action and started
    the timer of link 1.  When the timer of link 0 fires, its callback
    clears [this.fallbackTimeout], by then the handle of link 1's timer:
    [fallbackWait] ms after the second click the plugin has navigated to
    link 0 only, no timer is left, and the navigation to link 1 never
    happens, however long one waits. *)
Theorem overlapping_click_blocks_failed_composition :
  secondThrew.1.1 = Threw Exception ∧
  defaultPrevented secondThrew.1.2 = true ∧
  timers secondThrew.2 =
    [{| handle := 1; callback := 0%nat; due := 500 |};
     {| handle := 2; callback := 1%nat; due := 600 |}] ∧
  fallbackTimeout (this secondThrew.2) = Some 2%nat ∧
  navigations secondWaited = ["https://other.example/x"] ∧
  timers secondWaited = [] ∧
  closures secondWaited !! 1%nat =
    Some {| cl_link := 1; hitCallbackHasRun := false |} ∧
  ∀ d, navigations (elapse d secondWaited) = ["https://other.example/x"].
Proof.
  assert (Ht : timers secondWaited = []) by (vm_compute; reflexivity).
  assert (Hn : navigations secondWaited = ["https://other.example/x"])
    by (vm_compute; reflexivity).
  do 4 (split; [vm_compute; reflexivity|]).
  split; [exact Hn|]. split; [exact Ht|].
  split; [vm_compute; reflexivity|].
  intros d. rewrite (elapse_no_timers d secondWaited Ht). exact Hn.
Qed.

(** C9, on the page: constructed with [events: ['click', 'click']], the
    plugin has two listeners on the document and one entry in
    [this.delegates], that of the second; [remove()] returns normally and
    the first listener stays; the next click on the outbound link 0 is
    still handled and the tracker receives its hit. *)
Theorem repeated_event_name_survives_remove :
  listeners twicePage =
    [{| lid := 0; l_event := "click"; l_selector := "a" |};
     {| lid := 1; l_event := "click"; l_selector := "a" |}] ∧
  delegates (this twicePage) = Some (<["click" := 1%nat]> ∅) ∧
  twiceRemoved.1 = Returned ∧
  listeners twiceRemoved.2 =
    [{| lid := 0; l_event := "click"; l_selector := "a" |}] ∧
  calls twiceRemoved.2 = [UsageTrack theTracker] ∧
  calls (dispatch simpleParseUrl anchorMatches noAttributeFields plainCompose
           click 0 twiceRemoved.2).2 =
    [UsageTrack theTracker;
     Send theTracker "event"
       (<["transport" := VStr "beacon"]>
        (<["eventCategory" := VStr "Outbound Link"]>
        (<["eventAction" := VStr "click"]>
        (<["eventLabel" := VStr "https://other.example/x"]> ∅))))].
Proof.
  do 5 (split; [vm_compute; reflexivity|]). vm_compute. reflexivity.
Qed.

(** The event name [__proto__] is never recorded in [this.delegates]: its
    listener is on the document after the construction and after
    [remove()]. *)
Lemma proto_event_name_is_never_destroyed :
  let w := OutboundLinkTracker theTracker protoOverlay
             (initial_world (pageEnv true) pageLinks) in
  delegates (this w) = Some ∅ ∧
  listeners w = [{| lid := 0; l_event := "__proto__"; l_selector := "a" |}] ∧
  listeners (remove w).2 = listeners w.
Proof. cbv zeta. repeat split; vm_compute; reflexivity. Qed.

(** The delays that [setTimeout] derives from numbers outside the 32-bit
    range. *)
Lemma timerDelay_wraps :
  timerDelay 3000000000 = 0 ∧ timerDelay (-3000000000) = 1294967296 ∧
  timerDelay 4294967796 = 500 ∧ timerDelay (-1) = 0.
Proof. repeat split; reflexivity. Qed.

End Examples.

(** * Further properties of the plugin *)

Section Further.

Variable parseUrl : string -> Url.
Variable matches : string -> Link -> bool.
Variable getAttributeFields : Link -> string -> Fields.
Variable createFieldsObj :
  Fields -> Fields -> Tracker -> option HitFilter -> Link -> Composition.

Local Abbreviation handlerF :=
  (handleLinkInteractions parseUrl getAttributeFields createFieldsObj).
Local Abbreviation dispatchF :=
  (dispatch parseUrl matches getAttributeFields createFieldsObj).
Local Abbreviation stepF :=
  (step parseUrl matches getAttributeFields createFieldsObj).
Local Abbreviation runF :=
  (run parseUrl matches getAttributeFields createFieldsObj).

(** ** What one call of the handler leaves alone *)

(** Whatever branch lines 97-109 take, they leave the clock, the
    navigations, the listeners and the instance's options alone; the
    pending timers and the hit callbacks are kept as they are, with at
    most one new timer behind them; the event keeps its type and is not
    un-prevented. *)
Lemma applyFallback_frame o tgt l df ev w df' ev' w' :
  applyFallback o tgt l (df, ev, w) = (df', ev', w') →
  navigations w' = navigations w ∧ now w' = now w ∧ calls w' = calls w ∧
  timers w `prefix_of` timers w' ∧
  (length (timers w') ≤ S (length (timers w)))%nat ∧
  closures w `prefix_of` closures w' ∧
  type ev' = type ev ∧
  (defaultPrevented ev = true → defaultPrevented ev' = true).
Proof.
  unfold applyFallback.
  destruct (negb (hasSendBeacon (env w)) && truthy_opt (fallback o));
    [destruct (strict_eq (fallback o) "_blank");
       [|destruct (strict_eq (fallback o) "wait" && noTarget tgt)]|];
    intros [= <- <- <-]; simpl;
    repeat split; try reflexivity; try lia; try (eexists; reflexivity);
    try (rewrite length_app; simpl; lia); auto;
    exists []; rewrite app_nil_r; reflexivity.
Qed.

(** X2: one call of [handleLinkInteractions], in any world, assigns nothing
    to [document.location], cancels and fires no timer (the timer of an
    earlier click stays pending when a new one is started) and leaves the
    existing hit callbacks as they are; it starts at most one timer. *)
Theorem handler_keeps_pending_work ev l w :
  let r := handleLinkInteractions parseUrl getAttributeFields createFieldsObj
             ev l w in
  navigations r.2 = navigations w ∧ now r.2 = now w ∧
  timers w `prefix_of` timers r.2 ∧
  (length (timers r.2) ≤ S (length (timers w)))%nat ∧
  closures w `prefix_of` closures r.2 ∧
  type r.1.2 = type ev ∧
  (defaultPrevented ev = true → defaultPrevented r.1.2 = true).
Proof.
  cbv zeta. unfold handleLinkInteractions.
  assert (Hrefl : navigations w = navigations w ∧ now w = now w ∧
                  timers w `prefix_of` timers w ∧
                  (length (timers w) ≤ S (length (timers w)))%nat ∧
                  closures w `prefix_of` closures w ∧
                  type ev = type ev ∧
                  (defaultPrevented ev = true → defaultPrevented ev = true)).
  { repeat split; auto; try lia; exists []; rewrite app_nil_r; reflexivity. }
  destruct (opts (this w)) as [o|]; [|exact Hrefl].
  destruct (shouldTrackOutboundLink o (env w) (dom w l) parseUrl);
    [|exact Hrefl].
  destruct (applyFallback o _ l _) as [[df ev1] w1] eqn:Ha.
  apply applyFallback_frame in Ha as (H1 & H2 & _ & H3 & H4 & H5 & H6 & H7).
  destruct (tracker (this w1)) as [t|];
    [destruct (createFieldsObj _ _ _ _ _)|]; simpl; tauto.
Qed.

(** ** The "_blank" fallback and the links *)

(** X1: on a tracked link, when [navigator.sendBeacon] is missing and the
    fallback is "_blank" (the default), the handler sets the target of the
    link it was given to "_blank", keeps its address and attributes, and
    leaves every other link, the event and the timers alone; with a beacon
    or any other fallback no link is changed. *)
Theorem blank_fallback_rewrites_target w ev l o :
  opts (this w) = Some o →
  shouldTrackOutboundLink o (env w) (dom w l) parseUrl = true →
  let r := handleLinkInteractions parseUrl getAttributeFields createFieldsObj
             ev l w in
  (hasSendBeacon (env w) = false ∧ fallback o = Some "_blank" →
     dom r.2 l = {| href := href (dom w l); target := "_blank";
                    attributes := attributes (dom w l) |} ∧
     (∀ i, i ≠ l → dom r.2 i = dom w i) ∧
     r.1.2 = ev ∧ timers r.2 = timers w) ∧
  (hasSendBeacon (env w) = true ∨ fallback o ≠ Some "_blank" →
     dom r.2 = dom w).
Proof.
  intros Ho Hs. cbv zeta. unfold handleLinkInteractions. rewrite Ho, Hs.
  unfold applyFallback. split.
  - intros [Hb Hf]. rewrite Hb, Hf. simpl.
    assert (Hd : ∀ w2 : World,
              dom w2 = dom (set_link_target l "_blank" w) →
              dom w2 l = {| href := href (dom w l); target := "_blank";
                            attributes := attributes (dom w l) |} ∧
              ∀ i, i ≠ l → dom w2 i = dom w i).
    { intros w2 ->. simpl. rewrite Nat.eqb_refl. split; [reflexivity|].
      intros i Hi. apply Nat.eqb_neq in Hi. rewrite Hi. reflexivity. }
    destruct (tracker (this w)) as [t|];
      [destruct (createFieldsObj _ _ _ _ _)|]; simpl;
      (destruct (Hd (set_link_target l "_blank" w) eq_refl) as [H1 H2];
       repeat split; [exact H1|exact H2]).
  - intros Hc.
    destruct (negb (hasSendBeacon (env w)) && truthy_opt (fallback o)) eqn:E1.
    + destruct (strict_eq (fallback o) "_blank") eqn:E2.
      * exfalso. apply strict_eq_true in E2.
        apply andb_true_iff in E1 as [E1 _]. apply negb_true_iff in E1.
        destruct Hc; congruence.
      * destruct (strict_eq (fallback o) "wait" && noTarget _); simpl;
          (destruct (tracker (this w)) as [t|];
             [destruct (createFieldsObj _ _ _ _ _)|]); reflexivity.
    + destruct (tracker (this w)) as [t|];
        [destruct (createFieldsObj _ _ _ _ _)|]; reflexivity.
Qed.

Lemma links_evolve_refl w : links_evolve w w.
Proof. intros i. auto. Qed.

Lemma links_evolve_trans w1 w2 w3 :
  links_evolve w1 w2 → links_evolve w2 w3 → links_evolve w1 w3.
Proof.
  intros A B i. destruct (A i) as (A1 & A2 & A3), (B i) as (B1 & B2 & B3).
  repeat split; try congruence.
  destruct B3 as [B3|B3]; [rewrite B3; exact A3|right; exact B3].
Qed.

Lemma links_evolve_same w w' : dom w' = dom w → links_evolve w w'.
Proof. intros H i. rewrite H. auto. Qed.

Lemma handler_links_evolve ev l w : links_evolve w (handlerF ev l w).2.
Proof.
  unfold handleLinkInteractions.
  destruct (opts (this w)) as [o|]; [|apply links_evolve_refl].
  destruct (shouldTrackOutboundLink o (env w) (dom w l) parseUrl);
    [|apply links_evolve_refl].
  assert (Ha : ∀ df ev1 w1,
             applyFallback o (navigationTarget (dom w l) ev) l
               (defaultFields ev (dom w l), ev, w) = (df, ev1, w1) →
             links_evolve w w1).
  { unfold applyFallback.
    destruct (negb (hasSendBeacon (env w)) && truthy_opt (fallback o));
      [|intros ? ? ? [= <- <- <-]; apply links_evolve_refl].
    destruct (strict_eq (fallback o) "_blank").
    { intros ? ? ? [= <- <- <-]. intros i. simpl.
      destruct (Nat.eqb i l); simpl; auto. }
    destruct (strict_eq (fallback o) "wait" && noTarget _);
      intros ? ? ? [= <- <- <-]; apply links_evolve_same; reflexivity. }
  destruct (applyFallback o _ l _) as [[df ev1] w1].
  specialize (Ha _ _ _ eq_refl).
  destruct (tracker (this w1)); [|exact Ha].
  destruct (createFieldsObj _ _ _ _ _); exact Ha.
Qed.

Lemma run_timers_dom fuel t w : dom (run_timers fuel t w) = dom w.
Proof.
  revert w. induction fuel as [|fuel IH]; intros w; simpl; [reflexivity|].
  destruct (next_due t w) as [tm|]; [|reflexivity].
  rewrite IH. unfold fire. cbv zeta.
  match goal with
  | |- context [hitCallback ?c ?W] =>
    destruct (hitCallback_timers c W) as [_ ->]
  end.
  reflexivity.
Qed.

Lemma destroy_all_dom (kvs : list (string * nat)) w :
  dom (fold_left (fun w kv => destroy kv.2 w) kvs w) = dom w.
Proof.
  revert w. induction kvs as [|kv kvs IH]; intros w; simpl; [reflexivity|].
  rewrite IH. reflexivity.
Qed.

Lemma step_links_evolve w s : links_evolve w (stepF w s).
Proof.
  destruct s as [ev l|d|cb|]; cbn [step].
  - unfold dispatch. generalize (listeners w). intros xs.
    change w with (ev, w).2 at 1. generalize (ev, w). clear ev w.
    induction xs as [|x xs IH]; intros st; simpl;
      [apply links_evolve_refl|].
    eapply links_evolve_trans; [|apply IH].
    destruct st as [ev w]. unfold deliver.
    destruct (String.eqb (l_event x) (type ev) && matches _ _);
      [|apply links_evolve_refl].
    pose proof (handler_links_evolve ev l w) as H.
    destruct (handlerF ev l w) as [[c ev'] w']. exact H.
  - apply links_evolve_same. unfold elapse. simpl. apply run_timers_dom.
  - apply links_evolve_same. apply hitCallback_timers.
  - apply links_evolve_same. unfold remove.
    destruct (delegates (this w)); simpl; [apply destroy_all_dom|reflexivity].
Qed.

(** X9: whatever happens on the page (interactions, timers, completed
    sends, [remove()]), the plugin never changes the address or the
    attributes of a link, and the only target it ever writes is
    "_blank". *)
Theorem links_keep_their_address ss w :
  links_evolve w (run parseUrl matches getAttributeFields createFieldsObj ss w).
Proof.
  revert w. induction ss as [|s ss IH]; intros w; simpl.
  - apply links_evolve_refl.
  - eapply links_evolve_trans; [apply step_links_evolve|apply IH].
Qed.

(** ** remove() *)

Lemma filter_all {A} (P : A → Prop) `{!∀ x, Decision (P x)} (l : list A) :
  (∀ x, x ∈ l → P x) → filter P l = l.
Proof.
  induction l as [|a l IH]; intros Hall; [reflexivity|].
  rewrite filter_cons_True by (apply Hall; left).
  rewrite IH; [reflexivity|]. intros x Hx. apply Hall. right. exact Hx.
Qed.

(** The loop of [remove] only filters the listeners. *)
Lemma destroy_all_filter (kvs : list (string * nat)) w :
  fold_left (fun w kv => destroy kv.2 w) kvs w =
  set_listeners (filter (fun x => lid x ∉ kvs.*2) (listeners w))
    (next_listener w) w.
Proof.
  revert w. induction kvs as [|[k d] kvs IH]; intros w; simpl.
  - rewrite filter_all by (intros x _; apply not_elem_of_nil).
    destruct w; reflexivity.
  - rewrite IH. unfold destroy, set_listeners. simpl. f_equal.
    rewrite list_filter_filter. apply list_filter_iff.
    intros x. rewrite not_elem_of_cons. split; intros [? ?]; split; assumption.
Qed.

(** X5: on a constructed instance [remove()] returns normally and only
    takes listeners off the document, namely those whose delegate is
    recorded in [this.delegates]: the instance fields (with [delegates]
    itself), the pending timers, the hit callbacks, the links, the calls
    and the navigations are as before; a second [remove()] changes
    nothing more. *)
Theorem remove_only_detaches w ds :
  delegates (this w) = Some ds →
  let w' := (remove w).2 in
  (remove w).1 = Returned ∧
  this w' = this w ∧ timers w' = timers w ∧ closures w' = closures w ∧
  dom w' = dom w ∧ calls w' = calls w ∧ navigations w' = navigations w ∧
  (∀ x, x ∈ listeners w' ↔
        x ∈ listeners w ∧ ∀ k, ds !! k ≠ Some (lid x)) ∧
  remove w' = (Returned, w').
Proof.
  intros Hd.
  set (w1 := set_listeners
               (filter (fun x => lid x ∉ (map_to_list ds).*2) (listeners w))
               (next_listener w) w).
  assert (Hr : remove w = (Returned, w1)).
  { unfold remove. rewrite Hd, destroy_all_filter. reflexivity. }
  assert (Hin : ∀ n, n ∈ (map_to_list ds).*2 ↔ ∃ k, ds !! k = Some n).
  { intros n. rewrite list_elem_of_fmap. split.
    - intros ([k n'] & -> & H). exists k. apply elem_of_map_to_list. exact H.
    - intros (k & H). exists (k, n). split; [reflexivity|].
      apply elem_of_map_to_list. exact H. }
  cbv zeta. rewrite Hr. cbn [fst snd].
  do 7 (split; [reflexivity|]). split.
  - intros x. unfold w1. simpl. rewrite list_elem_of_filter, Hin. split.
    + intros [Hn Hx]. split; [exact Hx|]. intros k Hk. apply Hn. eauto.
    + intros [Hx Hk]. split; [|exact Hx]. intros [k H]. exact (Hk k H).
  - assert (Hd' : delegates (this w1) = Some ds) by exact Hd.
    unfold remove. rewrite Hd', destroy_all_filter. f_equal.
    unfold w1, set_listeners. simpl. f_equal.
    apply filter_all. intros x Hx. apply list_elem_of_filter in Hx as [Hx _].
    exact Hx.
Qed.

(** ** The constructor *)

(** The [forEach] of lines 58-61 touches the listeners and [delegates]
    only. *)
Lemma register_events_frame sel evs W :
  env (fold_left (registerEvent sel) evs W) = env W ∧
  opts (this (fold_left (registerEvent sel) evs W)) = opts (this W) ∧
  tracker (this (fold_left (registerEvent sel) evs W)) = tracker (this W) ∧
  fallbackTimeout (this (fold_left (registerEvent sel) evs W)) =
    fallbackTimeout (this W) ∧
  dom (fold_left (registerEvent sel) evs W) = dom W ∧
  calls (fold_left (registerEvent sel) evs W) = calls W.
Proof.
  revert W. induction evs as [|a evs IH]; intros W; simpl;
    [repeat split; reflexivity|].
  destruct (IH (registerEvent sel W a)) as (-> & -> & -> & -> & -> & ->).
  destruct (registerEvent_frame sel W a)
    as (-> & -> & -> & -> & -> & -> & _). repeat split; reflexivity.
Qed.


Lemma register_events_listeners sel evs W ds :
  delegates (this W) = Some ds →
  listeners (fold_left (registerEvent sel) evs W) =
    listeners W ++
    imap (fun i ev => {| lid := (next_listener W + i)%nat; l_event := ev;
                         l_selector := sel |}) evs ∧
  ∃ ds', delegates (this (fold_left (registerEvent sel) evs W)) = Some ds' ∧
         base.dom ds' =@{gset string}
         list_to_set (filter (fun ev => ev ≠ "__proto__") evs) ∪ base.dom ds.
Proof.
  revert W ds. induction evs as [|a evs IH]; intros W ds Hd; simpl.
  - rewrite app_nil_r. split; [reflexivity|]. exists ds.
    split; [exact Hd|]. rewrite (left_id_L ∅ (∪)). reflexivity.
  - assert (Hl0 : listeners (registerEvent sel W a) =
                  listeners W ++ [{| lid := next_listener W; l_event := a;
                                     l_selector := sel |}] ∧
                  next_listener (registerEvent sel W a) =
                  S (next_listener W)).
    { unfold registerEvent. simpl.
      destruct (String.eqb a "__proto__"); simpl; auto. }
    destruct Hl0 as [Hl0 Hn0].
    assert (Hlist : ∀ W2, listeners W2 = listeners (registerEvent sel W a) →
                      next_listener W2 = S (next_listener W) →
                      listeners W2 ++
                      imap (fun i ev => {| lid := (next_listener W2 + i)%nat;
                                           l_event := ev;
                                           l_selector := sel |}) evs =
                      listeners W ++
                      {| lid := (next_listener W + 0)%nat; l_event := a;
                         l_selector := sel |} ::
                      imap ((fun i ev => {| lid := (next_listener W + i)%nat;
                                            l_event := ev;
                                            l_selector := sel |}) ∘ S) evs).
    { intros W2 -> ->. rewrite Hl0, <- app_assoc. simpl.
      rewrite Nat.add_0_r. do 2 f_equal.
      apply imap_ext. intros i x _. simpl. f_equal. lia. }
    destruct (String.eqb_spec a "__proto__") as [Ea|Ea].
    + destruct (IH (registerEvent sel W a) ds) as (Hl & ds' & Hd' & Hdom).
      { unfold registerEvent. simpl. rewrite Ea. simpl. exact Hd. }
      split.
      * rewrite Hl. apply Hlist; [reflexivity|exact Hn0].
      * exists ds'. split; [exact Hd'|].
        rewrite Hdom, filter_cons_False by (intros H; apply H; exact Ea).
        reflexivity.
    + destruct (IH (registerEvent sel W a) (<[a := next_listener W]> ds))
        as (Hl & ds' & Hd' & Hdom).
      { rewrite registerEvent_plain by exact Ea. simpl. rewrite Hd.
        reflexivity. }
      split.
      * rewrite Hl. apply Hlist; [reflexivity|exact Hn0].
      * exists ds'. split; [exact Hd'|].
        rewrite Hdom, dom_insert_L, filter_cons_True by exact Ea.
        rewrite list_to_set_cons.
        apply set_eq. intros x. rewrite !elem_of_union.
        split; [intros [?|[?|?]]|intros [[?|?]|?]]; auto.
Qed.

(** X6: in a browser with [addEventListener] the constructor reports the
    plugin's use to the tracker and sends nothing; it stores the options
    (the defaults overlaid with the given ones) and the tracker, and puts
    one listener on the document per entry of [events], in order, each for
    [linkSelector] and each with an id of its own; the properties of
    [this.delegates] are exactly the event names other than [__proto__]
    (an assignment to that name sets the prototype instead).  Links and
    timers are not touched. *)
Theorem construction_registers t ov w :
  hasAddEventListener (env w) = true →
  let o := assign_opts default_opts ov in
  let w1 := OutboundLinkTracker t ov w in
  opts (this w1) = Some o ∧ tracker (this w1) = Some t ∧
  fallbackTimeout (this w1) = None ∧
  calls w1 = calls w ++ [UsageTrack t] ∧
  listeners w1 =
    listeners w ++
    imap (fun i ev => {| lid := (next_listener w + i)%nat; l_event := ev;
                         l_selector := linkSelector o |}) (events o) ∧
  (∃ ds, delegates (this w1) = Some ds ∧
         base.dom ds =@{gset string}
         list_to_set (filter (fun ev => ev ≠ "__proto__") (events o))) ∧
  dom w1 = dom w ∧ timers w1 = timers w.
Proof.
  intros Ha o w1. unfold w1, OutboundLinkTracker. cbv zeta.
  change (env (usage_track t (set_this blank_instance w))) with (env w).
  rewrite Ha. cbn [negb]. fold o.
  match goal with |- context [fold_left (registerEvent ?sel) ?evs ?W] =>
    destruct (register_events_frame sel evs W) as (_ & -> & -> & -> & -> & ->);
    destruct (register_events_timers sel evs W) as [-> _];
    destruct (register_events_listeners sel evs W ∅ eq_refl)
      as (-> & ds & -> & Hdom)
  end.
  simpl. repeat split; try reflexivity.
  exists ds. split; [reflexivity|].
  rewrite Hdom, dom_empty_L, (right_id_L ∅ (∪)). reflexivity.
Qed.

(** ** Without the "wait" fallback *)

Lemma never_waits_evolves w w' : evolves w w' → never_waits w → never_waits w'.
Proof.
  intros (He & Ho & _) H o Hw'. rewrite He. apply H. congruence.
Qed.

Lemma handler_never_waits ev l w :
  never_waits w →
  (handlerF ev l w).1.2 = ev ∧
  timers (handlerF ev l w).2 = timers w ∧
  closures (handlerF ev l w).2 = closures w ∧
  navigations (handlerF ev l w).2 = navigations w.
Proof.
  intros Hn. unfold handleLinkInteractions.
  destruct (opts (this w)) as [o|] eqn:Ho; [|auto].
  destruct (shouldTrackOutboundLink o (env w) (dom w l) parseUrl); [|auto].
  destruct (applyFallback_idle o (navigationTarget (dom w l) ev) l
              (defaultFields ev (dom w l)) ev w) as (w1 & -> & Hw).
  { destruct (Hn o Ho); auto. }
  destruct (tracker (this w1)) as [t|];
    [destruct (createFieldsObj _ _ _ _ _)|];
    destruct Hw as [-> | ->]; simpl; auto.
Qed.

Lemma dispatch_never_waits xs l st :
  never_waits st.2 →
  let st' := fold_left
               (deliver parseUrl matches getAttributeFields createFieldsObj l)
               xs st in
  st'.1 = st.1 ∧ timers st'.2 = timers st.2 ∧
  closures st'.2 = closures st.2 ∧ navigations st'.2 = navigations st.2.
Proof.
  revert st. induction xs as [|x xs IH]; intros st Hn; simpl; [auto|].
  assert (H1 : never_waits
                 (deliver parseUrl matches getAttributeFields createFieldsObj
                    l st x).2 ∧
               (deliver parseUrl matches getAttributeFields createFieldsObj
                  l st x).1 = st.1 ∧
               timers (deliver parseUrl matches getAttributeFields
                         createFieldsObj l st x).2 = timers st.2 ∧
               closures (deliver parseUrl matches getAttributeFields
                           createFieldsObj l st x).2 = closures st.2 ∧
               navigations (deliver parseUrl matches getAttributeFields
                              createFieldsObj l st x).2 = navigations st.2).
  { destruct st as [ev w]. unfold deliver. simpl in Hn |- *.
    destruct (String.eqb (l_event x) (type ev) && matches _ _); [|auto].
    pose proof (handler_never_waits ev l w Hn) as H.
    pose proof (handler_evolves parseUrl getAttributeFields createFieldsObj
                  ev l w) as [He _].
    destruct (handlerF ev l w) as [[c ev'] w']. simpl in *.
    split; [eapply never_waits_evolves; eauto|exact H]. }
  destruct H1 as (Hn' & E1 & E2 & E3 & E4).
  destruct (IH _ Hn') as (F1 & F2 & F3 & F4).
  cbv zeta in F1, F2, F3, F4. rewrite F1, F2, F3, F4. auto.
Qed.

Lemma step_idle w s : never_waits w → idle w → idle (stepF w s).
Proof.
  intros Hn (Ht & Hc & Hv). destruct s as [ev l|d|cb|]; cbn [step].
  - destruct (dispatch_never_waits (listeners w) l (ev, w) Hn)
      as (_ & E2 & E3 & E4).
    unfold idle, dispatch. rewrite E2, E3, E4. auto.
  - unfold elapse. rewrite Ht. simpl. unfold idle. simpl. auto.
  - unfold hitCallback. rewrite Hc. simpl. unfold idle. auto.
  - unfold remove. destruct (delegates (this w)); simpl;
      [rewrite destroy_all_filter|]; unfold idle; simpl; auto.
Qed.

Lemma construction_idle t ov w :
  idle w → idle (OutboundLinkTracker t ov w).
Proof.
  intros (Ht & Hc & Hv). unfold OutboundLinkTracker. cbv zeta.
  assert (Hf : ∀ sel evs W, closures (fold_left (registerEvent sel) evs W)
                            = closures W ∧
                            navigations (fold_left (registerEvent sel) evs W)
                            = navigations W).
  { intros sel evs. induction evs as [|a evs IH]; intros W; simpl; [auto|].
    destruct (IH (registerEvent sel W a)) as [-> ->].
    destruct (registerEvent_frame sel W a)
      as (_ & _ & _ & _ & _ & _ & _ & _ & -> & ->). auto. }
  destruct (negb (hasAddEventListener _)); unfold idle.
  - simpl. auto.
  - match goal with |- context [fold_left (registerEvent ?sel) ?evs ?W] =>
      destruct (register_events_timers sel evs W) as [-> _];
      destruct (Hf sel evs W) as [-> ->]
    end.
    simpl. auto.
Qed.

(** X4: when the browser has [navigator.sendBeacon], or the configured
    fallback is not "wait" (as with the default options), the plugin never
    defers anything: after any activity on a fresh page there is no timer,
    no hit callback and no navigation of the plugin's own, and every
    dispatched event comes back as it was, its default action not
    prevented. *)
Theorem without_wait_nothing_is_deferred e d t ov ss :
  hasSendBeacon e = true ∨
    fallback (assign_opts default_opts ov) ≠ Some "wait" →
  let w := run parseUrl matches getAttributeFields createFieldsObj ss
             (OutboundLinkTracker t ov (initial_world e d)) in
  idle w ∧
  ∀ ev l, (dispatch parseUrl matches getAttributeFields createFieldsObj
             ev l w).1 = ev.
Proof.
  intros Hc.
  set (w0 := OutboundLinkTracker t ov (initial_world e d)).
  assert (Hn0 : never_waits w0).
  { intros o. unfold w0, OutboundLinkTracker. cbv zeta.
    destruct (negb (hasAddEventListener _)) eqn:Ha.
    - simpl. discriminate.
    - match goal with |- context [fold_left (registerEvent ?sel) ?evs ?W] =>
        pose proof (register_events_frame sel evs W) as (He & Ho & _)
      end.
      rewrite He, Ho. simpl. intros [= <-]. exact Hc. }
  assert (Hi0 : idle w0).
  { apply construction_idle. unfold idle. simpl. auto. }
  assert (H : ∀ w, never_waits w → idle w →
                never_waits (runF ss w) ∧ idle (runF ss w)).
  { induction ss as [|s ss IH]; intros w Hn Hi; simpl; [auto|].
    apply IH.
    - eapply never_waits_evolves; [apply step_evolves|exact Hn].
    - apply step_idle; assumption. }
  destruct (H w0 Hn0 Hi0) as [Hn Hi]. cbv zeta. split; [exact Hi|].
  intros ev l.
  destruct (dispatch_never_waits (listeners (runF ss w0)) l
              (ev, runF ss w0) Hn) as (E & _).
  exact E.
Qed.

(** ** Delivery of an interaction to the handler *)

Lemma handler_type ev l w : type (handlerF ev l w).1.2 = type ev.
Proof.
  unfold handleLinkInteractions.
  destruct (opts (this w)) as [o|]; [|reflexivity].
  destruct (shouldTrackOutboundLink o (env w) (dom w l) parseUrl);
    [|reflexivity].
  destruct (applyFallback o _ l _) as [[df ev1] w1] eqn:Ha.
  apply applyFallback_frame in Ha as (_ & _ & _ & _ & _ & _ & H & _).
  destruct (tracker (this w1)) as [t|];
    [destruct (createFieldsObj _ _ _ _ _)|]; exact H.
Qed.

Lemma deliver_other_names l xs st :
  (∀ y, y ∈ xs → l_event y ≠ type st.1) →
  fold_left (deliver parseUrl matches getAttributeFields createFieldsObj l)
    xs st = st.
Proof.
  induction xs as [|y xs IH]; intros H; simpl; [reflexivity|].
  assert (Hy : deliver parseUrl matches getAttributeFields createFieldsObj
                 l st y = st).
  { destruct st as [ev w]. unfold deliver.
    assert (E : String.eqb (l_event y) (type ev) = false).
    { apply String.eqb_neq. apply (H y). left. }
    rewrite E. reflexivity. }
  rewrite Hy. apply IH. intros z Hz. apply H. right. exact Hz.
Qed.

(** X7: when the listeners on the document are for distinct event names
    (as the constructor leaves them for distinct [events]), an interaction
    whose type is one of them, on an element the listener's selector
    resolves, runs [handleLinkInteractions] exactly once: the dispatch does
    what that one call does. *)
Theorem configured_interaction_runs_handler_once ev l w x :
  NoDup (l_event <$> listeners w) →
  x ∈ listeners w → l_event x = type ev →
  matches (l_selector x) (dom w l) = true →
  dispatch parseUrl matches getAttributeFields createFieldsObj ev l w =
  ((handleLinkInteractions parseUrl getAttributeFields createFieldsObj
      ev l w).1.2,
   (handleLinkInteractions parseUrl getAttributeFields createFieldsObj
      ev l w).2).
Proof.
  intros Hnd Hx Hname Hm. unfold dispatch.
  apply list_elem_of_split in Hx as (l1 & l2 & Hl). rewrite Hl in Hnd |- *.
  rewrite fmap_app, fmap_cons in Hnd.
  apply NoDup_app in Hnd as (_ & H1 & H2). apply NoDup_cons in H2 as [H2 _].
  rewrite fold_left_app. rewrite (deliver_other_names l l1 (ev, w)).
  2: { intros y Hy E. cbn [fst] in E.
       apply (H1 (l_event y)); [apply list_elem_of_fmap_2; exact Hy|].
       rewrite E, <- Hname. left. }
  simpl. rewrite Hname, String.eqb_refl, Hm. simpl.
  pose proof (handler_type ev l w) as Ht.
  destruct (handlerF ev l w) as [[c ev'] w']. simpl in Ht |- *.
  apply deliver_other_names. intros y Hy E. cbn [fst] in E.
  rewrite Ht, <- Hname in E.
  apply H2. rewrite <- E. apply list_elem_of_fmap_2. exact Hy.
Qed.

(** X8: an interaction of a type no listener is registered for, or on an
    element that no listener's selector resolves, never reaches the
    handler: the event and the world are as before. *)
Theorem unconfigured_interaction_is_ignored ev l w :
  (∀ x, x ∈ listeners w →
        l_event x ≠ type ev ∨ matches (l_selector x) (dom w l) = false) →
  dispatch parseUrl matches getAttributeFields createFieldsObj ev l w =
  (ev, w).
Proof.
  unfold dispatch. generalize (listeners w). intros xs.
  induction xs as [|y xs IH]; intros H; simpl; [reflexivity|].
  assert (E : String.eqb (l_event y) (type ev) &&
              matches (l_selector y) (dom w l) = false).
  { destruct (H y) as [Hn | Hm]; [left| |].
    - apply String.eqb_neq in Hn. rewrite Hn. reflexivity.
    - rewrite Hm. apply andb_false_r. }
  rewrite E. apply IH. intros z Hz. apply H. right. exact Hz.
Qed.

(** ** Navigations and hit callbacks *)

Lemma filter_run_insert (cs : list Closure) i c :
  cs !! i = Some c → hitCallbackHasRun c = false →
  filter (fun c => hitCallbackHasRun c = true)
    (<[i := {| cl_link := cl_link c; hitCallbackHasRun := true |}]> cs) ≡ₚ
  {| cl_link := cl_link c; hitCallbackHasRun := true |} ::
  filter (fun c => hitCallbackHasRun c = true) cs.
Proof.
  revert i. induction cs as [|a cs IH]; intros i Hi Hr; [discriminate|].
  destruct i as [|i]; simpl in Hi |- *.
  - injection Hi as ->. rewrite filter_cons_True by reflexivity.
    rewrite (filter_cons_False _ c) by congruence. reflexivity.
  - specialize (IH i Hi Hr). rewrite !filter_cons.
    destruct (decide (hitCallbackHasRun a = true)).
    + rewrite IH. apply Permutation_swap.
    + exact IH.
Qed.

Lemma visited_same w w' :
  (∀ i, href (dom w' i) = href (dom w i)) →
  filter (fun c => hitCallbackHasRun c = true) (closures w') =
  filter (fun c => hitCallbackHasRun c = true) (closures w) →
  visited w' = visited w.
Proof.
  intros Hh Hc. unfold visited. rewrite Hc.
  apply list_fmap_ext. intros i c _. apply Hh.
Qed.

Lemma handler_run_closures ev l w :
  navigations (handlerF ev l w).2 = navigations w ∧
  filter (fun c => hitCallbackHasRun c = true) (closures (handlerF ev l w).2) =
  filter (fun c => hitCallbackHasRun c = true) (closures w).
Proof.
  unfold handleLinkInteractions.
  destruct (opts (this w)) as [o|]; [|auto].
  destruct (shouldTrackOutboundLink o (env w) (dom w l) parseUrl); [|auto].
  assert (Ha : ∀ df ev1 w1,
             applyFallback o (navigationTarget (dom w l) ev) l
               (defaultFields ev (dom w l), ev, w) = (df, ev1, w1) →
             navigations w1 = navigations w ∧
             filter (fun c => hitCallbackHasRun c = true) (closures w1) =
             filter (fun c => hitCallbackHasRun c = true) (closures w)).
  { unfold applyFallback.
    destruct (negb (hasSendBeacon (env w)) && truthy_opt (fallback o));
      [|intros ? ? ? [= <- <- <-]; auto].
    destruct (strict_eq (fallback o) "_blank");
      [intros ? ? ? [= <- <- <-]; auto|].
    destruct (strict_eq (fallback o) "wait" && noTarget _);
      intros ? ? ? [= <- <- <-]; [|auto].
    simpl. split; [reflexivity|].
    rewrite filter_app, filter_cons_False by (simpl; congruence).
    rewrite filter_nil, app_nil_r. reflexivity. }
  destruct (applyFallback o _ l _) as [[df ev1] w1].
  specialize (Ha _ _ _ eq_refl).
  destruct (tracker (this w1)); [|exact Ha].
  destruct (createFieldsObj _ _ _ _ _); exact Ha.
Qed.

Lemma handler_visited ev l w :
  navigations (handlerF ev l w).2 = navigations w ∧
  visited (handlerF ev l w).2 = visited w.
Proof.
  split; [apply (handler_run_closures ev l w)|].
  apply visited_same.
  - intros i. apply (handler_links_evolve ev l w i).
  - apply (handler_run_closures ev l w).
Qed.

Lemma hitCallback_visited cb w :
  navigations w ≡ₚ visited w →
  navigations (hitCallback cb w) ≡ₚ visited (hitCallback cb w).
Proof.
  intros K. unfold hitCallback.
  destruct (closures w !! cb) as [c|] eqn:Hc; [|exact K].
  destruct (hitCallbackHasRun c) eqn:Hr; [exact K|].
  assert (Hv : visited
                 (assign_location (cl_link c)
                    (set_closures
                       (<[cb := {| cl_link := cl_link c;
                                   hitCallbackHasRun := true |}]>
                          (closures (clearTimeout (fallbackTimeout (this w)) w)))
                       (clearTimeout (fallbackTimeout (this w)) w))) ≡ₚ
               href (dom w (cl_link c)) :: visited w).
  { unfold visited.
    replace (closures (clearTimeout (fallbackTimeout (this w)) w))
      with (closures w) by (destruct (fallbackTimeout (this w)); reflexivity).
    replace (dom (assign_location _ _)) with (dom w)
      by (destruct (fallbackTimeout (this w)); reflexivity).
    cbn [closures assign_location set_navigations set_closures].
    rewrite (filter_run_insert _ _ _ Hc Hr). reflexivity. }
  rewrite Hv.
  replace (navigations (assign_location _ _))
    with (navigations w ++ [href (dom w (cl_link c))])
    by (destruct (fallbackTimeout (this w)); reflexivity).
  rewrite <- K. symmetry. apply Permutation_cons_append.
Qed.

Lemma step_visited w s :
  navigations w ≡ₚ visited w →
  navigations (stepF w s) ≡ₚ visited (stepF w s).
Proof.
  intros K. destruct s as [ev l|d|cb|]; cbn [step].
  - unfold dispatch. revert K. generalize (listeners w). intros xs.
    change w with (ev, w).2 at 1 2. generalize (ev, w). clear ev w.
    induction xs as [|x xs IH]; intros st K; simpl; [exact K|].
    apply IH. destruct st as [ev w]. unfold deliver.
    destruct (String.eqb (l_event x) (type ev) && matches _ _); [|exact K].
    destruct (handler_visited ev l w) as [Hn Hv].
    destruct (handlerF ev l w) as [[c ev'] w']. simpl in *.
    rewrite Hn, Hv. exact K.
  - unfold elapse.
    change (navigations (run_timers (length (timers w)) (now w + Z.max 0 d) w)
            ≡ₚ visited (run_timers (length (timers w))
                          (now w + Z.max 0 d) w)).
    generalize (now w + Z.max 0 d). generalize (length (timers w)).
    intros fuel t. revert w K.
    induction fuel as [|fuel IH]; intros w K; simpl; [exact K|].
    destruct (next_due t w) as [tm|]; [|exact K].
    apply IH. unfold fire. cbv zeta. apply hitCallback_visited. exact K.
  - apply hitCallback_visited. exact K.
  - unfold remove. destruct (delegates (this w)); simpl; [|exact K].
    rewrite destroy_all_filter. exact K.
Qed.

(** X3: on a page where the plugin was constructed, whatever happens
    afterwards, the assignments to [document.location] are, up to order,
    the addresses of the links captured by the hit callbacks that have
    run: one navigation per such callback and no other; so there are never
    more navigations than hit callbacks created. *)
Theorem navigations_are_run_callbacks e d t ov ss :
  let w := run parseUrl matches getAttributeFields createFieldsObj ss
             (OutboundLinkTracker t ov (initial_world e d)) in
  navigations w ≡ₚ visited w ∧
  (length (navigations w) ≤ length (closures w))%nat.
Proof.
  set (w0 := OutboundLinkTracker t ov (initial_world e d)).
  assert (K0 : navigations w0 ≡ₚ visited w0).
  { destruct (construction_idle t ov (initial_world e d)) as (_ & Hc & Hn).
    { unfold idle. simpl. auto. }
    fold w0 in Hc, Hn. unfold visited. rewrite Hc, Hn. reflexivity. }
  assert (K : ∀ w, navigations w ≡ₚ visited w →
                navigations (runF ss w) ≡ₚ visited (runF ss w)).
  { induction ss as [|s ss IH]; intros w Kw; simpl; [exact Kw|].
    apply IH, step_visited, Kw. }
  cbv zeta. split; [apply K, K0|].
  rewrite (Permutation_length (K w0 K0)). unfold visited.
  rewrite length_fmap. apply length_filter.
Qed.

(** ** The deferred navigation of one click *)

Lemma cancel_fresh h tm ts :
  (∀ x, x ∈ ts → handle x ≠ h) → handle tm = h →
  cancel h (ts ++ [tm]) = ts.
Proof.
  intros Hts Htm. unfold cancel.
  rewrite filter_app, filter_cons_False by (intros H; apply H; exact Htm).
  rewrite filter_nil, app_nil_r. apply filter_all. exact Hts.
Qed.

(** The world right after the "wait" branch, up to the calls received by
    the tracker. *)
Lemma handler_wait_world w ev l o t :
  opts (this w) = Some o → tracker (this w) = Some t →
  shouldTrackOutboundLink o (env w) (dom w l) parseUrl = true →
  hasSendBeacon (env w) = false → fallback o = Some "wait" →
  navigationTarget (dom w l) ev = None →
  let w1 := (handlerF ev l w).2 in
  closures w1 =
    closures w ++ [{| cl_link := l; hitCallbackHasRun := false |}] ∧
  timers w1 =
    timers w ++ [{| handle := next_handle w; callback := length (closures w);
                    due := now w + timerDelay (fallbackWait o) |}] ∧
  fallbackTimeout (this w1) = Some (next_handle w) ∧
  navigations w1 = navigations w ∧ dom w1 = dom w ∧ now w1 = now w.
Proof.
  intros Ho Ht Hs Hb Hf Hn. cbv zeta.
  rewrite (handler_wait parseUrl getAttributeFields createFieldsObj
             w ev l o t Ho Ht Hs Hb Hf Hn).
  destruct (createFieldsObj _ _ _ _ _); simpl; repeat split; reflexivity.
Qed.

(** X10: after a click that engaged the "wait" fallback (the handle of the
    new timer not being in use), the completion of the send runs the hit
    callback, which cancels exactly the timer of that click and navigates
    to the link; if the earlier pending timers belong to callbacks that
    have run, no amount of waiting adds another navigation. *)
Theorem completed_send_cancels_timer w ev l o t :
  opts (this w) = Some o → tracker (this w) = Some t →
  shouldTrackOutboundLink o (env w) (dom w l) parseUrl = true →
  hasSendBeacon (env w) = false → fallback o = Some "wait" →
  navigationTarget (dom w l) ev = None →
  (∀ tm, tm ∈ timers w → handle tm ≠ next_handle w) →
  let w1 := (handleLinkInteractions parseUrl getAttributeFields
               createFieldsObj ev l w).2 in
  let w2 := hitCallback (length (closures w)) w1 in
  timers w2 = timers w ∧
  navigations w2 = navigations w ++ [href (dom w l)] ∧
  (settled w →
   ∀ d, navigations (elapse d w2) = navigations w ++ [href (dom w l)]).
Proof.
  intros Ho Ht Hs Hb Hf Hn Hfresh.
  destruct (handler_wait_world w ev l o t Ho Ht Hs Hb Hf Hn)
    as (Hc & Hti & Hft & Hnav & Hdom & _).
  cbv zeta. set (w1 := (handlerF ev l w).2) in *.
  assert (Hl : closures w1 !! length (closures w) =
               Some {| cl_link := l; hitCallbackHasRun := false |}).
  { rewrite Hc, lookup_app_r by reflexivity.
    rewrite Nat.sub_diag. reflexivity. }
  assert (Hw2 : timers (hitCallback (length (closures w)) w1) = timers w ∧
                navigations (hitCallback (length (closures w)) w1) =
                  navigations w ++ [href (dom w l)] ∧
                closures (hitCallback (length (closures w)) w1) =
                  <[length (closures w) :=
                      {| cl_link := l; hitCallbackHasRun := true |}]>
                    (closures w1)).
  { unfold hitCallback. rewrite Hl. cbn [hitCallbackHasRun cl_link].
    rewrite Hft. unfold assign_location, clearTimeout. simpl.
    rewrite Hti, Hnav, Hdom. rewrite cancel_fresh by auto. auto. }
  destruct Hw2 as (T2 & N2 & C2).
  split; [exact T2|]. split; [exact N2|].
  intros Hset d. unfold elapse. cbn [navigations set_now].
  rewrite run_timers_settled; [exact N2|].
  intros tm Htm. rewrite T2 in Htm.
  eapply (has_run_insert _ (length (closures w)) _ w1); [exact Hl| |exact C2].
  destruct (Hset tm Htm) as (c & Hc1 & Hc2). exists c. split; [|exact Hc2].
  rewrite Hc, lookup_app_l; [exact Hc1|]. eapply lookup_lt_Some; eauto.
Qed.

Lemma run_timers_not_due fuel t w :
  (∀ tm, tm ∈ timers w → has_run (callback tm) w ∨ (t < due tm)%Z) →
  navigations (run_timers fuel t w) = navigations w.
Proof.
  revert w. induction fuel as [|fuel IH]; intros w H; simpl; [reflexivity|].
  destruct (next_due t w) as [tm|] eqn:En; [|reflexivity].
  apply next_due_in in En as [Hin Hd].
  destruct (H tm Hin) as [Hr|Hr]; [|lia].
  rewrite (fire_has_run tm w Hr). rewrite IH; [reflexivity|].
  intros x Hx. simpl in Hx. apply list_elem_of_filter in Hx as [_ Hx].
  exact (H x Hx).
Qed.

(** X11: after a click that engaged the "wait" fallback, while no send
    completes and the earlier pending timers (if any) belong to callbacks
    that have run: before the delay of the timer has passed the plugin has
    not navigated; once it has passed it has navigated to the link, once.
    The delay is the one [setTimeout] derives from [fallbackWait]
    ([fallbackWait] as a 32-bit integer, a negative one counting as 0): it
    is [fallbackWait] ms when [0 <= fallbackWait < 2^31]. *)
Theorem deferred_navigation_waits_fallbackWait w ev l o t d :
  opts (this w) = Some o → tracker (this w) = Some t →
  shouldTrackOutboundLink o (env w) (dom w l) parseUrl = true →
  hasSendBeacon (env w) = false → fallback o = Some "wait" →
  navigationTarget (dom w l) ev = None →
  (∀ tm, tm ∈ timers w →
         handle tm ≠ next_handle w ∧ has_run (callback tm) w) →
  let w1 := (handleLinkInteractions parseUrl getAttributeFields
               createFieldsObj ev l w).2 in
  ((0 ≤ d < timerDelay (fallbackWait o))%Z →
     navigations (elapse d w1) = navigations w) ∧
  ((timerDelay (fallbackWait o) ≤ Z.max 0 d)%Z →
     navigations (elapse d w1) = navigations w ++ [href (dom w l)]) ∧
  ((0 ≤ fallbackWait o < 2 ^ 31)%Z →
     timerDelay (fallbackWait o) = fallbackWait o).
Proof.
  intros Ho Ht Hs Hb Hf Hn Hold. cbv zeta.
  split; [|split; [|apply timerDelay_in_range]].
  - intros Hd.
    destruct (handler_wait_world w ev l o t Ho Ht Hs Hb Hf Hn)
      as (Hc & Hti & _ & Hnav & _ & Hnow).
    cbv zeta in Hc, Hti, Hnav, Hnow.
    unfold elapse. cbn [navigations set_now].
    rewrite run_timers_not_due; [exact Hnav|].
    intros tm Htm. rewrite Hti in Htm.
    apply elem_of_app in Htm as [Htm|Htm].
    + left. destruct (Hold tm Htm) as (_ & c & Hc1 & Hc2).
      exists c. split; [|exact Hc2].
      rewrite Hc, lookup_app_l; [exact Hc1|]. eapply lookup_lt_Some; eauto.
    + right. apply list_elem_of_singleton in Htm as ->. simpl.
      rewrite Hnow. lia.
  - intros Hd.
    apply (wait_then_timeout parseUrl getAttributeFields createFieldsObj
             w ev l o t d Ho Ht Hs Hb Hf Hn Hold Hd).
Qed.

Lemma awaiting_after_wait w l o d (W : World) :
  closures W =
    closures w ++ [{| cl_link := l; hitCallbackHasRun := false |}] →
  timers W =
    timers w ++ [{| handle := next_handle w; callback := length (closures w);
                    due := now w + timerDelay (fallbackWait o) |}] →
  fallbackTimeout (this W) = Some (next_handle w) →
  now W = now w →
  (∀ tm, tm ∈ timers w →
         handle tm ≠ next_handle w ∧ has_run (callback tm) w) →
  (timerDelay (fallbackWait o) ≤ Z.max 0 d)%Z →
  awaiting (next_handle w) (length (closures w)) l (now W + Z.max 0 d) W.
Proof.
  intros Hc Ht Hf Hn Hold Hd. unfold awaiting, has_run.
  rewrite Hc, Ht, Hf, Hn.
  split; [rewrite lookup_app_r by reflexivity;
          rewrite Nat.sub_diag; reflexivity|].
  split; [reflexivity|]. split.
  - eexists. split; [apply elem_of_app; right; left|].
    simpl. split; [reflexivity|lia].
  - intros x Hx. apply elem_of_app in Hx as [Hx | Hx].
    + destruct (Hold x Hx) as [Hne (c & Hc1 & Hr)].
      destruct (decide (handle x = next_handle w)); [contradiction|].
      exists c. split; [|exact Hr].
      rewrite lookup_app_l; [exact Hc1|]. eapply lookup_lt_Some; eauto.
    + apply list_elem_of_singleton in Hx as ->. simpl.
      destruct (decide (next_handle w = next_handle w)); congruence.
Qed.

(** X12: [remove()] does not cancel a deferred navigation.  After a click
    that engaged the "wait" fallback (the earlier pending timers, if any,
    belonging to callbacks that have run), calling [remove()] and waiting
    for the delay of the timer ([fallbackWait] ms when
    [0 <= fallbackWait < 2^31]) still ends in the navigation to the
    link. *)
Theorem remove_keeps_deferred_navigation w ev l o t d :
  opts (this w) = Some o → tracker (this w) = Some t →
  shouldTrackOutboundLink o (env w) (dom w l) parseUrl = true →
  hasSendBeacon (env w) = false → fallback o = Some "wait" →
  navigationTarget (dom w l) ev = None →
  (∀ tm, tm ∈ timers w →
         handle tm ≠ next_handle w ∧ has_run (callback tm) w) →
  (timerDelay (fallbackWait o) ≤ Z.max 0 d)%Z →
  let w1 := (handleLinkInteractions parseUrl getAttributeFields
               createFieldsObj ev l w).2 in
  timers (remove w1).2 = timers w1 ∧
  navigations (elapse d (remove w1).2) = navigations w ++ [href (dom w l)].
Proof.
  intros Ho Ht Hs Hb Hf Hn Hold Hd.
  destruct (handler_wait_world w ev l o t Ho Ht Hs Hb Hf Hn)
    as (Hc & Hti & Hft & Hnav & Hdom & Hnow).
  cbv zeta in *. set (w1 := (handlerF ev l w).2) in *.
  assert (Hr : closures (remove w1).2 = closures w1 ∧
               timers (remove w1).2 = timers w1 ∧
               this (remove w1).2 = this w1 ∧ now (remove w1).2 = now w1 ∧
               navigations (remove w1).2 = navigations w1 ∧
               dom (remove w1).2 = dom w1).
  { unfold remove. destruct (delegates (this w1)); cbn [snd];
      [rewrite destroy_all_filter|]; repeat split; reflexivity. }
  destruct Hr as (R1 & R2 & R3 & R4 & R5 & R6).
  split; [exact R2|].
  unfold elapse. cbn [navigations set_now].
  rewrite (run_timers_awaiting (next_handle w) (length (closures w)) l).
  - rewrite R5, R6, Hnav, Hdom. reflexivity.
  - apply (awaiting_after_wait w l o d); try congruence; assumption.
  - apply Nat.le_refl.
Qed.

(** ** Step 4: the navigation target *)

(** X13: the handler finds no navigation target (the condition under which
    the "wait" fallback may defer the navigation) exactly when no modifier
    key is held, the button is not the middle one, and the link's target
    is empty or is [_self], [_parent] or [_top] written in any letter
    case. *)
Theorem navigationTarget_None_iff link ev :
  navigationTarget link ev = None ↔
  ctrlKey ev = false ∧ shiftKey ev = false ∧ metaKey ev = false ∧
  which ev ≠ 2 ∧
  (target link = "" ∨
   toLower (target link) = "_self" ∨ toLower (target link) = "_parent" ∨
   toLower (target link) = "_top").
Proof.
  unfold navigationTarget, modifierOrMiddle, declaredTarget, truthy,
    matches_reserved.
  destruct (ctrlKey ev), (shiftKey ev), (metaKey ev); simpl;
    try (split; [discriminate|intros (? & ? & ? & _); discriminate]).
  destruct (Z.eqb_spec (which ev) 2) as [E|E]; simpl.
  { split; [discriminate|]. intros (_ & _ & _ & H & _). destruct (H E). }
  destruct (String.eqb_spec (target link) "") as [E0|E0]; simpl.
  { split; [intros _; repeat split; auto|reflexivity]. }
  destruct (String.eqb_spec (toLower (target link)) "_self") as [E1|E1];
    simpl; [split; [intros _; repeat split; auto|reflexivity]|].
  destruct (String.eqb_spec (toLower (target link)) "_parent") as [E2|E2];
    simpl; [split; [intros _; repeat split; auto|reflexivity]|].
  destruct (String.eqb_spec (toLower (target link)) "_top") as [E3|E3];
    simpl; [split; [intros _; repeat split; auto 6|reflexivity]|].
  split; [discriminate|]. intros (_ & _ & _ & _ & [H|[H|[H|H]]]); contradiction.
Qed.

End Further.

(** * The further properties on the example page *)

Section FurtherExamples.

Local Abbreviation handle1 :=
  (handleLinkInteractions simpleParseUrl noAttributeFields plainCompose).
Local Abbreviation dispatch1 :=
  (dispatch simpleParseUrl anchorMatches noAttributeFields plainCompose).
Local Abbreviation run1 :=
  (run simpleParseUrl anchorMatches noAttributeFields plainCompose).

Lemma blank_fallback_rewrites_target_witness :
  dom (handle1 click 0 defaultPage).2 0%nat =
    {| href := "https://other.example/x"; target := "_blank";
       attributes := [] |} ∧
  dom (handle1 click 0 defaultPage).2 1%nat = pageLinks 1 ∧
  dom (handle1 click 0 (waitPage false)).2 = pageLinks.
Proof.
  destruct (blank_fallback_rewrites_target simpleParseUrl noAttributeFields
              plainCompose defaultPage click 0
              (assign_opts default_opts no_overlay) eq_refl eq_refl)
    as [H _].
  destruct (H (conj eq_refl eq_refl)) as (H1 & H2 & _).
  destruct (blank_fallback_rewrites_target simpleParseUrl noAttributeFields
              plainCompose (waitPage false) click 0 waitOpts eq_refl eq_refl)
    as [_ H3].
  split; [exact H1|]. split; [apply H2; discriminate|].
  apply H3. right. discriminate.
Defined.

Lemma without_wait_nothing_is_deferred_witness :
  idle (run1 [Interact click 0; Elapse 1000; Interact click 1] defaultPage) ∧
  (dispatch1 click 0 defaultPage).1 = click.
Proof.
  assert (Hc : hasSendBeacon (pageEnv false) = true ∨
               fallback (assign_opts default_opts no_overlay) ≠ Some "wait")
    by (right; discriminate).
  split.
  - apply (without_wait_nothing_is_deferred simpleParseUrl anchorMatches
             noAttributeFields plainCompose (pageEnv false) pageLinks
             theTracker no_overlay
             [Interact click 0; Elapse 1000; Interact click 1] Hc).
  - apply (without_wait_nothing_is_deferred simpleParseUrl anchorMatches
             noAttributeFields plainCompose (pageEnv false) pageLinks
             theTracker no_overlay [] Hc).
Defined.

Lemma remove_only_detaches_witness :
  let w := (handle1 click 0 (waitPage false)).2 in
  timers (remove w).2 = timers w ∧
  delegates (this (remove w).2) = Some (<["click" := 0%nat]> ∅) ∧
  remove (remove w).2 = (Returned, (remove w).2).
Proof.
  intros w.
  destruct (remove_only_detaches w (<["click" := 0%nat]> ∅) eq_refl)
    as (_ & H1 & H2 & _ & _ & _ & _ & _ & H3).
  split; [exact H2|]. split; [rewrite H1; reflexivity|exact H3].
Defined.

Lemma construction_registers_witness :
  listeners (waitPage true) = [clickListener] ∧
  calls (waitPage true) = [UsageTrack theTracker] ∧
  opts (this (waitPage true)) = Some waitOpts.
Proof.
  destruct (construction_registers theTracker waitOverlay
              (initial_world (pageEnv true) pageLinks) eq_refl)
    as (H1 & _ & _ & H2 & H3 & _).
  split; [exact H3|]. split; [exact H2|exact H1].
Defined.

Lemma configured_interaction_runs_handler_once_witness :
  dispatch1 click 0 (waitPage false) =
  ((handle1 click 0 (waitPage false)).1.2, (handle1 click 0 (waitPage false)).2).
Proof.
  apply (configured_interaction_runs_handler_once simpleParseUrl anchorMatches
           noAttributeFields plainCompose click 0 (waitPage false)
           clickListener).
  - change (NoDup ["click"]). apply NoDup_cons.
    split; [apply not_elem_of_nil|]. apply NoDup_nil. exact I.
  - change (clickListener ∈ [clickListener]). left.
  - reflexivity.
  - reflexivity.
Defined.

Lemma unconfigured_interaction_is_ignored_witness :
  dispatch1 keydown 0 (waitPage false) = (keydown, waitPage false).
Proof.
  apply (unconfigured_interaction_is_ignored simpleParseUrl anchorMatches
           noAttributeFields plainCompose keydown 0 (waitPage false)).
  intros x Hx. change (x ∈ [clickListener]) in Hx.
  apply list_elem_of_singleton in Hx as ->. left. discriminate.
Defined.

Lemma no_earlier_timer (P : Timer → Prop) :
  ∀ tm, tm ∈ timers (waitPage false) → P tm.
Proof.
  intros tm Htm. change (tm ∈ []) in Htm.
  apply elem_of_nil in Htm. contradiction.
Defined.

Lemma completed_send_cancels_timer_witness :
  let w2 := hitCallback 0 (handle1 click 0 (waitPage false)).2 in
  timers w2 = [] ∧ navigations w2 = ["https://other.example/x"] ∧
  navigations (elapse 10000 w2) = ["https://other.example/x"].
Proof.
  destruct (completed_send_cancels_timer simpleParseUrl noAttributeFields
              plainCompose (waitPage false) click 0 waitOpts theTracker
              eq_refl eq_refl eq_refl eq_refl eq_refl eq_refl
              (no_earlier_timer _))
    as (H1 & H2 & H3).
  cbv zeta. split; [exact H1|]. split; [exact H2|].
  apply H3. exact (no_earlier_timer _).
Defined.

Lemma deferred_navigation_waits_fallbackWait_witness :
  navigations (elapse 499 (handle1 click 0 (waitPage false)).2) = [] ∧
  navigations (elapse 500 (handle1 click 0 (waitPage false)).2) =
    ["https://other.example/x"].
Proof.
  split.
  - apply (deferred_navigation_waits_fallbackWait simpleParseUrl
             noAttributeFields plainCompose (waitPage false) click 0
             waitOpts theTracker 499
             eq_refl eq_refl eq_refl eq_refl eq_refl eq_refl
             (no_earlier_timer _)).
    vm_compute. split; [discriminate|reflexivity].
  - apply (deferred_navigation_waits_fallbackWait simpleParseUrl
             noAttributeFields plainCompose (waitPage false) click 0
             waitOpts theTracker 500
             eq_refl eq_refl eq_refl eq_refl eq_refl eq_refl
             (no_earlier_timer _)).
    vm_compute. discriminate.
Defined.

Lemma remove_keeps_deferred_navigation_witness :
  navigations (elapse 500 (remove (handle1 click 0 (waitPage false)).2).2) =
  ["https://other.example/x"].
Proof.
  apply (remove_keeps_deferred_navigation simpleParseUrl noAttributeFields
           plainCompose (waitPage false) click 0 waitOpts theTracker 500
           eq_refl eq_refl eq_refl eq_refl eq_refl eq_refl
           (no_earlier_timer _)).
  vm_compute. discriminate.
Defined.

End FurtherExamples.
